(** * zkp-server: the credential commitment pipeline of [src/server.ts]

    A shallow embedding of the TypeScript server: the static methods of
    [ZKProofGenerator] and the four POST handlers. The external capabilities
    (Poseidon, the Groth16 prover, [Math.random]) are the fields of a [World]
    that the handlers take as a parameter, and every call of them is recorded
    in a trace. Console logging is left out. *)

From Stdlib Require Import ZArith NArith List Bool Lia.
From Stdlib Require Import Strings.String Strings.Ascii Strings.Byte.
From Stdlib Require Import Decimal DecimalPos DecimalZ Permutation.
Import ListNotations.
Open Scope Z_scope.

(** ** JavaScript strings and [TextEncoder] *)

(** A JavaScript string is a sequence of UTF-16 code units. *)
Definition jsstring := list N.

(** String literals of the source are ASCII; [lit] turns one into code units. *)
Definition lit (s : string) : jsstring :=
  map N_of_ascii (list_ascii_of_string s).
Arguments lit s%_string.

Definition is_high_surrogate (c : N) : bool := ((55296 <=? c) && (c <=? 56319))%N.
Definition is_low_surrogate (c : N) : bool := ((56320 <=? c) && (c <=? 57343))%N.

(** Conversion to scalar values as [TextEncoder.encode] performs it on its
    argument: a surrogate pair is one code point, a lone surrogate becomes
    U+FFFD. *)
Fixpoint scalar_values (s : jsstring) : list N :=
  match s with
  | [] => []
  | c :: rest =>
      if is_high_surrogate c then
        match rest with
        | d :: rest' =>
            if is_low_surrogate d
            then (65536 + (c - 55296) * 1024 + (d - 56320))%N :: scalar_values rest'
            else 65533%N :: scalar_values rest
        | [] => [65533%N]
        end
      else if is_low_surrogate c then 65533%N :: scalar_values rest
      else c :: scalar_values rest
  end.

(** An element of a [Uint8Array]. *)
Definition byte_of_N (n : N) : byte :=
  match Byte.of_N (n mod 256) with
  | Some b => b
  | None => x00
  end.

Definition utf8_bytes (cp : N) : list byte :=
  (if cp <? 128 then [byte_of_N cp]
   else if cp <? 2048 then
     [byte_of_N (192 + cp / 64); byte_of_N (128 + cp mod 64)]
   else if cp <? 65536 then
     [byte_of_N (224 + cp / 4096); byte_of_N (128 + (cp / 64) mod 64);
      byte_of_N (128 + cp mod 64)]
   else
     [byte_of_N (240 + cp / 262144); byte_of_N (128 + (cp / 4096) mod 64);
      byte_of_N (128 + (cp / 64) mod 64); byte_of_N (128 + cp mod 64)])%N.

(** [new TextEncoder().encode(str)] *)
Definition TextEncoder_encode (str : jsstring) : list byte :=
  flat_map utf8_bytes (scalar_values str).

(** ** BigInt rendering *)

Fixpoint digits_of_uint (u : uint) : jsstring :=
  match u with
  | Nil => []
  | D0 u => 48%N :: digits_of_uint u
  | D1 u => 49%N :: digits_of_uint u
  | D2 u => 50%N :: digits_of_uint u
  | D3 u => 51%N :: digits_of_uint u
  | D4 u => 52%N :: digits_of_uint u
  | D5 u => 53%N :: digits_of_uint u
  | D6 u => 54%N :: digits_of_uint u
  | D7 u => 55%N :: digits_of_uint u
  | D8 u => 56%N :: digits_of_uint u
  | D9 u => 57%N :: digits_of_uint u
  end.

(** [BigInt.prototype.toString()]: decimal digits, a leading minus sign for a
    negative value. *)
Definition BigInt_toString (z : Z) : jsstring :=
  match Z.to_int z with
  | Decimal.Pos u => digits_of_uint u
  | Decimal.Neg u => 45%N :: digits_of_uint u
  end.

(** ** [ZKProofGenerator.stringToFieldElement] *)

(** [BigInt(bytes[i])] *)
Definition byte_at (bytes : list byte) (i : nat) : Z :=
  Z.of_N (Byte.to_N (nth i bytes x00)).

(** The [for] loop of lines 65-67: [steps] iterations remain, [i] is the loop
    index and [result] the accumulator. *)
Fixpoint encode_loop (bytes : list byte) (steps i : nat) (result : Z) : Z :=
  match steps with
  | O => result
  | S steps' =>
      encode_loop bytes steps' (S i)
        (result + byte_at bytes i * 256 ^ Z.of_nat i)
  end.

(** The value of [result] when the loop exits. *)
Definition field_value (bytes : list byte) : Z :=
  encode_loop bytes (Nat.min (List.length bytes) 31) 0 0.

Definition stringToFieldElement (str : jsstring) : jsstring :=
  let bytes := TextEncoder_encode str in
  BigInt_toString (field_value bytes).

(** ** JavaScript values

    A request body is what [express.json()] parsed; an absent property reads as
    [VUndefined]. [VNum n] stands for the number whose value is the integer
    [n]: a number with a fractional part has no counterpart here. Such a
    number prints as the digits of [n] as long as [n] is a safe integer
    (below 2^53 in absolute value); the rendering of larger numbers is not
    modelled (see [Number_toString] and [exact_numbers]). *)
#[local] Set Warnings "-register-all".
Inductive value : Type :=
| VUndefined
| VNull
| VBool (b : bool)
| VNum (n : Z)
| VStr (s : jsstring)
| VArr (elems : list value)
| VObj (props : list (jsstring * value)).

Definition jsstring_eqb (s t : jsstring) : bool :=
  if list_eq_dec N.eq_dec s t then true else false.

(** [!!v]: the falsy values are [undefined], [null], [false], [0] and [""]. *)
Definition truthy (v : value) : bool :=
  match v with
  | VUndefined | VNull => false
  | VBool b => b
  | VNum n => negb (n =? 0)
  | VStr [] => false
  | VStr (_ :: _) => true
  | VArr _ | VObj _ => true
  end.

Definition Array_isArray (v : value) : bool :=
  match v with
  | VArr _ => true
  | _ => false
  end.

(** [Number.isSafeInteger(n)]: the integers that a JSON number carries
    exactly and that JavaScript prints digit by digit. *)
Definition safe_integer (n : Z) : bool :=
  (- (2 ^ 53 - 1) <=? n) && (n <=? 2 ^ 53 - 1).

(** [Number.prototype.toString()] on a safe integer: its decimal digits.
    Above 2^53 JavaScript prints the shortest digits that read back as the
    same double (2^60 prints as 1152921504606847000) and from 10^21 on it
    prints exponent notation; this function does not reproduce either, so
    every statement about a rendered number is made under [exact_numbers]. *)
Definition Number_toString (n : Z) : jsstring := BigInt_toString n.

(** The text of [String(v)] when that conversion returns (see
    [String_throws]). An array renders as its elements joined by commas, with
    [undefined] and [null] elements rendered empty. *)
Fixpoint ToString (v : value) : jsstring :=
  match v with
  | VUndefined => lit "undefined"
  | VNull => lit "null"
  | VBool true => lit "true"
  | VBool false => lit "false"
  | VNum n => Number_toString n
  | VStr s => s
  | VArr elems =>
      (fix join (l : list value) : jsstring :=
         match l with
         | [] => []
         | x :: rest =>
             let sx := match x with
                       | VUndefined | VNull => []
                       | _ => ToString x
                       end in
             match rest with
             | [] => sx
             | _ :: _ => sx ++ 44%N :: join rest
             end
         end) elems
  | VObj _ => lit "[object Object]"
  end.

(** [Array.prototype.join(sep)] on the elements of an array. *)
Fixpoint Array_join (sep : jsstring) (l : list value) : jsstring :=
  match l with
  | [] => []
  | x :: rest =>
      let sx := match x with
                | VUndefined | VNull => []
                | _ => ToString x
                end in
      match rest with
      | [] => sx
      | _ :: _ => sx ++ sep ++ Array_join sep rest
      end
  end.

(** The numbers that [String(v)] prints are safe integers, so that
    [ToString v] is what JavaScript prints. An object prints no number. *)
Fixpoint exact_numbers (v : value) : bool :=
  match v with
  | VNum n => safe_integer n
  | VArr elems =>
      (fix all (l : list value) : bool :=
         match l with
         | [] => true
         | x :: rest => exact_numbers x && all rest
         end) elems
  | _ => true
  end.

(** [key] is an own property of the object. *)
Fixpoint has_key (key : jsstring) (props : list (jsstring * value)) : bool :=
  match props with
  | [] => false
  | (k, _) :: rest => jsstring_eqb key k || has_key key rest
  end.

(** [String(v)] throws a TypeError: a parsed object whose own [toString]
    property hides [Object.prototype.toString] cannot be converted (the
    property holds JSON data, never a function), and an array cannot when
    one of its elements cannot. *)
Fixpoint String_throws (v : value) : bool :=
  match v with
  | VObj props => has_key (lit "toString") props
  | VArr elems =>
      (fix any (l : list value) : bool :=
         match l with
         | [] => false
         | x :: rest => String_throws x || any rest
         end) elems
  | _ => false
  end.

(** ** Exceptions *)

Inductive builtin_error : Type := TypeError | SyntaxError | RangeError.

(** The [message] of a thrown error: a text of [server.ts], a text chosen by
    the JavaScript engine or by a library, or the template of line 99. *)
Inductive message : Type :=
| Literal (text : string)
| Engine (kind : builtin_error)
| Library (text : jsstring)
| Template (prefix : string) (inner : message).

Inductive exn : Type := Thrown (msg : message).

Definition error_message (e : exn) : message :=
  match e with Thrown m => m end.

Definition result (A : Type) : Type := (exn + A)%type.

(** ** [BigInt(v)] *)

Definition is_whitespace (c : N) : bool :=
  ((c =? 9) || (c =? 10) || (c =? 11) || (c =? 12) || (c =? 13) || (c =? 32)
   || (c =? 160) || (c =? 5760) || ((8192 <=? c) && (c <=? 8202))
   || (c =? 8232) || (c =? 8233) || (c =? 8239) || (c =? 8287)
   || (c =? 12288) || (c =? 65279))%N.

Fixpoint trim_start (s : jsstring) : jsstring :=
  match s with
  | c :: rest => if is_whitespace c then trim_start rest else s
  | [] => []
  end.

Definition trim (s : jsstring) : jsstring :=
  List.rev (trim_start (List.rev (trim_start s))).

Fixpoint uint_of_digits (s : jsstring) : option uint :=
  match s with
  | [] => Some Nil
  | c :: rest =>
      match uint_of_digits rest with
      | None => None
      | Some u =>
          match c with
          | 48%N => Some (D0 u) | 49%N => Some (D1 u) | 50%N => Some (D2 u)
          | 51%N => Some (D3 u) | 52%N => Some (D4 u) | 53%N => Some (D5 u)
          | 54%N => Some (D6 u) | 55%N => Some (D7 u) | 56%N => Some (D8 u)
          | 57%N => Some (D9 u)
          | _ => None
          end
      end
  end.

(** One or more decimal digits. *)
Definition parse_decimal (s : jsstring) : option Z :=
  match s with
  | [] => None
  | _ :: _ => option_map Z.of_uint (uint_of_digits s)
  end.

Definition digit_in_radix (radix : Z) (c : N) : option Z :=
  let d := if ((48 <=? c) && (c <=? 57))%N then Z.of_N c - 48
           else if ((97 <=? c) && (c <=? 122))%N then Z.of_N c - 87
           else if ((65 <=? c) && (c <=? 90))%N then Z.of_N c - 55
           else radix in
  if d <? radix then Some d else None.

Fixpoint parse_radix_from (radix : Z) (acc : Z) (s : jsstring) : option Z :=
  match s with
  | [] => Some acc
  | c :: rest =>
      match digit_in_radix radix c with
      | Some d => parse_radix_from radix (acc * radix + d) rest
      | None => None
      end
  end.

(** One or more digits after a [0x], [0o] or [0b] prefix. *)
Definition parse_radix (radix : Z) (s : jsstring) : option Z :=
  match s with
  | [] => None
  | _ :: _ => parse_radix_from radix 0 s
  end.

(** A [0x], [0o] or [0b] prefix (either case): the radix and what follows. *)
Definition radix_prefix (s : jsstring) : option (Z * jsstring) :=
  match s with
  | c0 :: c1 :: ds =>
      if (c0 =? 48)%N then
        if ((c1 =? 120) || (c1 =? 88))%N then Some (16, ds)
        else if ((c1 =? 111) || (c1 =? 79))%N then Some (8, ds)
        else if ((c1 =? 98) || (c1 =? 66))%N then Some (2, ds)
        else None
      else None
  | _ => None
  end.

(** StringToBigInt: surrounding white space is dropped; the empty string is
    0; a decimal literal may carry a sign, a prefixed literal may not. *)
Definition StringToBigInt (s : jsstring) : option Z :=
  match trim s with
  | [] => Some 0
  | c0 :: rest =>
      match radix_prefix (c0 :: rest) with
      | Some (radix, ds) => parse_radix radix ds
      | None =>
          if (c0 =? 43)%N then parse_decimal rest
          else if (c0 =? 45)%N then option_map Z.opp (parse_decimal rest)
          else parse_decimal (c0 :: rest)
      end
  end.

Definition BigInt_of_string (s : jsstring) : result Z :=
  match StringToBigInt s with
  | Some z => inr z
  | None => inl (Thrown (Engine SyntaxError))
  end.

(** [BigInt(v)]: a number converts directly, anything else through its
    primitive: an array or object through its string, with the TypeError of
    that conversion when it throws. *)
Definition BigInt (v : value) : result Z :=
  match v with
  | VUndefined | VNull => inl (Thrown (Engine TypeError))
  | VBool true => inr 1
  | VBool false => inr 0
  | VNum n => inr n
  | VStr s => BigInt_of_string s
  | VArr _ | VObj _ =>
      if String_throws v then inl (Thrown (Engine TypeError))
      else BigInt_of_string (ToString v)
  end.

(** ** Types of [server.ts] *)

Module ZKProofData.
(** An entry is [None] where the source reads an index that the raw array
    does not have ([undefined]). *)
Record t : Type := make {
  a : list (option jsstring);
  b : list (list (option jsstring));
  c : list (option jsstring)
}.
End ZKProofData.

(** The fields are typed [string] in the source and hold whatever the request
    carried at run time. *)
Record CircuitInputs : Type := {
  username : value;
  password : value;
  username_hash : value;
  credential_hash : value;
  nonce : value;
  result_hash : value
}.

Record ProofResult : Type := {
  proof : ZKProofData.t;
  publicSignals : list jsstring
}.

(** What [groth16.fullProve] resolves to. *)
Record RawProof : Type := {
  pi_a : list jsstring;
  pi_b : list (list jsstring);
  pi_c : list jsstring
}.

(** What [poseidon(inputs)] returns: a bigint, a field-representation object
    (carried here by its [poseidon.F.toString] rendering), or another
    primitive. *)
Inductive HashResult : Type :=
| HR_bigint (z : Z)
| HR_object (F_toString : jsstring)
| HR_other (v : value).

(** The external collaborators as one request meets them: [buildPoseidon()]
    and the function it resolves to, [groth16.fullProve] on the two circuit
    files, and the integer [Math.floor(Math.random() * 1000000)] of the one
    draw a request can make. The prover is randomised and every draw is
    fresh, so two requests meet two worlds: no statement compares the runs
    of two requests in one world. *)
Record World : Type := {
  buildPoseidon : result (list Z -> result HashResult);
  groth16_fullProve : CircuitInputs -> result (RawProof * list jsstring);
  Math_random_scaled : Z
}.

(** ** Effects: a call trace and exceptions *)

Inductive event : Type :=
| CallStringToField (str : jsstring)
| CallBuildPoseidon
| CallPoseidon (inputs : list Z)
| CallFullProve (inputs : CircuitInputs)
| CallRandom.

Definition M (A : Type) : Type := (list event * result A)%type.

Definition ret {A} (x : A) : M A := ([], inr x).
Definition throw {A} (e : exn) : M A := ([], inl e).
Definition emit (ev : event) : M unit := ([ev], inr tt).
Definition lift {A} (r : result A) : M A := ([], r).

Definition bind {A B} (m : M A) (k : A -> M B) : M B :=
  match m with
  | (t, inl e) => (t, inl e)
  | (t, inr x) => let (t', r) := k x in (t ++ t', r)
  end.

(** [try { m } catch (error) { handler(error) }] *)
Definition try_catch {A} (m : M A) (handler : exn -> M A) : M A :=
  match m with
  | (t, inl e) => let (t', r) := handler e in (t ++ t', r)
  | (t, inr x) => (t, inr x)
  end.

Declare Scope js_scope.
Delimit Scope js_scope with js.
Notation "x <- m ;; k" := (bind m (fun x => k))
  (at level 61, m at next level, right associativity) : js_scope.
Notation "m ;;; k" := (bind m (fun _ => k))
  (at level 61, right associativity) : js_scope.
Open Scope js_scope.

Fixpoint mapM {A B} (f : A -> M B) (l : list A) : M (list B) :=
  match l with
  | [] => ret []
  | x :: rest => y <- f x ;; ys <- mapM f rest ;; ret (y :: ys)
  end.

(** ** Responses *)

(** One constructor per object literal handed to [res.json]. *)
Inductive response_body : Type :=
| ErrorBody (error : message)
| HashBody (hash : jsstring)
| FieldElementBody (fieldElement : jsstring)
| ProofBody (proof : ZKProofData.t) (publicSignals : list jsstring)
| FailureBody (error : message)
| AuthBody (usernameHash credentialHash resultHash : jsstring)
    (nonce : value) (proof : ZKProofData.t) (publicSignals : list jsstring).

Record response : Type := { status : Z; body : response_body }.

(** The response carries an [error] property. *)
Definition has_error_field (r : response) : bool :=
  match body r with
  | ErrorBody _ | FailureBody _ => true
  | _ => false
  end.

(** The response carries a [fieldElement] property. *)
Definition has_fieldElement (r : response) : bool :=
  match body r with
  | FieldElementBody _ => true
  | _ => false
  end.

(** A handler: the [try] block yields the response or throws, the [catch]
    block turns what was thrown into the 500 response. *)
Definition handle (try_block : M response) (on_error : exn -> response)
  : list event * response :=
  match try_block with
  | (t, inr r) => (t, r)
  | (t, inl e) => (t, on_error e)
  end.

(** [const { key } = req.body]: reading a property of [undefined] or [null]
    throws; an object yields its property or [undefined]. The handlers read
    nine names ([inputs], [value], [username], ...), none of which a string,
    number, boolean or array has. *)
Fixpoint lookup (key : jsstring) (props : list (jsstring * value)) : value :=
  match props with
  | [] => VUndefined
  | (k, v) :: rest => if jsstring_eqb key k then v else lookup key rest
  end.

Definition get_prop (obj : value) (key : jsstring) : M value :=
  match obj with
  | VUndefined | VNull => throw (Thrown (Engine TypeError))
  | VObj props => ret (lookup key props)
  | _ => ret VUndefined
  end.

(** [String(v)], as [TextEncoder.encode] applies it to its argument. *)
Definition String_of (v : value) : M jsstring :=
  if String_throws v then throw (Thrown (Engine TypeError))
  else ret (ToString v).

(** [arr.join(sep)] *)
Definition join (sep : jsstring) (elems : list value) : M jsstring :=
  if existsb String_throws elems then throw (Thrown (Engine TypeError))
  else ret (Array_join sep elems).

(** [v.toString()]: [undefined] and [null] have no method, and an object
    whose own [toString] property is data has none to call. *)
Definition method_toString (v : value) : M jsstring :=
  match v with
  | VUndefined | VNull => throw (Thrown (Engine TypeError))
  | _ => String_of v
  end.

(** [arr[i]] *)
Definition index {A} (arr : list A) (i : nat) : option A := nth_error arr i.

(** [arr[i][j]]: reading an index of [undefined] throws. *)
Definition index2 {A} (arr : list (list A)) (i j : nat) : M (option A) :=
  match index arr i with
  | None => throw (Thrown (Engine TypeError))
  | Some row => ret (index row j)
  end.

(** ** [ZKProofGenerator] and the routes *)

Section Server.

Variable world : World.

Definition hashWithPoseidon (inputs : list Z) : M jsstring :=
  emit CallBuildPoseidon ;;;
  poseidon <- lift (buildPoseidon world) ;;
  emit (CallPoseidon inputs) ;;;
  hashResult <- lift (poseidon inputs) ;;
  ret (match hashResult with
       | HR_bigint z => BigInt_toString z
       | HR_object rendered => rendered
       | HR_other v => ToString v
       end).

(** The call [ZKProofGenerator.stringToFieldElement(str)], recorded in the
    trace with the string that is encoded. The parameter is typed [string];
    where a handler passes a value of another type, [TextEncoder.encode]
    converts it with [String(v)], which the handlers below write as
    [String_of] before the call: a conversion that throws leaves no call in
    the trace. *)
Definition call_stringToFieldElement (str : jsstring) : M jsstring :=
  emit (CallStringToField str) ;;;
  ret (stringToFieldElement str).

Definition generateProof (inputs : CircuitInputs) : M ProofResult :=
  try_catch
    (emit (CallFullProve inputs) ;;;
     fullProve <- lift (groth16_fullProve world inputs) ;;
     let (proof, publicSignals) := fullProve in
     b01 <- index2 (pi_b proof) 0 1 ;;
     b00 <- index2 (pi_b proof) 0 0 ;;
     b11 <- index2 (pi_b proof) 1 1 ;;
     b10 <- index2 (pi_b proof) 1 0 ;;
     ret {| proof :=
              ZKProofData.make
                [index (pi_a proof) 0; index (pi_a proof) 1]
                [[b01; b00]; [b11; b10]]
                [index (pi_c proof) 0; index (pi_c proof) 1];
            publicSignals := publicSignals |})
    (fun error =>
       throw (Thrown (Template "Failed to generate ZK proof: "
                        (error_message error)))).

(** [POST /api/hash] *)
Definition api_hash (req_body : value) : list event * response :=
  handle
    (inputs <- get_prop req_body (lit "inputs") ;;
     if negb (truthy inputs) || negb (Array_isArray inputs) then
       ret {| status := 400;
              body := ErrorBody
                        (Literal "Invalid inputs. Expected array of values.") |}
     else
       bigIntInputs <- match inputs with
                       | VArr elems => mapM (fun i => lift (BigInt i)) elems
                       | _ => throw (Thrown (Engine TypeError))
                       end ;;
       hash <- hashWithPoseidon bigIntInputs ;;
       ret {| status := 200; body := HashBody hash |})
    (fun error =>
       {| status := 500; body := ErrorBody (error_message error) |}).

(** [POST /api/string-to-field] *)
Definition api_string_to_field (req_body : value) : list event * response :=
  handle
    (value <- get_prop req_body (lit "value") ;;
     if negb (truthy value) then
       ret {| status := 400; body := ErrorBody (Literal "Value is required") |}
     else
       str <- String_of value ;;
       fieldElement <- call_stringToFieldElement str ;;
       ret {| status := 200; body := FieldElementBody fieldElement |})
    (fun error =>
       {| status := 500; body := ErrorBody (error_message error) |}).

(** [POST /api/generate-proof] *)
Definition api_generate_proof (req_body : value) : list event * response :=
  handle
    (username <- get_prop req_body (lit "username") ;;
     password <- get_prop req_body (lit "password") ;;
     username_hash <- get_prop req_body (lit "username_hash") ;;
     credential_hash <- get_prop req_body (lit "credential_hash") ;;
     nonce <- get_prop req_body (lit "nonce") ;;
     result_hash <- get_prop req_body (lit "result_hash") ;;
     if negb (truthy username) || negb (truthy password)
        || negb (truthy username_hash) || negb (truthy credential_hash)
        || negb (truthy nonce) || negb (truthy result_hash) then
       ret {| status := 400;
              body := ErrorBody
                        (Literal "Missing required fields: username, password, username_hash, credential_hash, nonce, result_hash") |}
     else
       proofData <- generateProof
                      {| username := username;
                         password := password;
                         username_hash := username_hash;
                         credential_hash := credential_hash;
                         nonce := nonce;
                         result_hash := result_hash |} ;;
       ret {| status := 200;
              body := ProofBody (proof proofData) (publicSignals proofData) |})
    (fun error =>
       {| status := 500; body := FailureBody (error_message error) |}).

(** [nonce || Math.floor(Math.random() * 1000000)] (line 215): the right
    operand is evaluated only when [nonce] is falsy. *)
Definition nonce_or_random (nonce : value) : M value :=
  if truthy nonce then ret nonce
  else emit CallRandom ;;; ret (VNum (Math_random_scaled world)).

(** [POST /api/auth/generate-proof] *)
Definition api_auth_generate_proof (req_body : value)
  : list event * response :=
  handle
    (username <- get_prop req_body (lit "username") ;;
     pattern <- get_prop req_body (lit "pattern") ;;
     nonce <- get_prop req_body (lit "nonce") ;;
     if negb (truthy username) || negb (truthy pattern)
        || negb (Array_isArray pattern) then
       ret {| status := 400;
              body := ErrorBody
                        (Literal "Missing required fields: username (string), pattern (array)") |}
     else
       usernameString <- String_of username ;;
       usernameField <- call_stringToFieldElement usernameString ;;
       joined <- match pattern with
                 | VArr elems => join [] elems
                 | _ => throw (Thrown (Engine TypeError))
                 end ;;
       passwordField <- call_stringToFieldElement joined ;;
       u1 <- lift (BigInt (VStr usernameField)) ;;
       usernameHash <- hashWithPoseidon [u1] ;;
       u2 <- lift (BigInt (VStr usernameField)) ;;
       p2 <- lift (BigInt (VStr passwordField)) ;;
       credentialHash <- hashWithPoseidon [u2; p2] ;;
       nonceValue <- nonce_or_random nonce ;;
       c3 <- lift (BigInt (VStr credentialHash)) ;;
       n3 <- lift (BigInt nonceValue) ;;
       resultHash <- hashWithPoseidon [c3; n3] ;;
       nonceString <- method_toString nonceValue ;;
       proofData <- generateProof
                      {| username := VStr usernameField;
                         password := VStr passwordField;
                         username_hash := VStr usernameHash;
                         credential_hash := VStr credentialHash;
                         nonce := VStr nonceString;
                         result_hash := VStr resultHash |} ;;
       ret {| status := 200;
              body := AuthBody usernameHash credentialHash resultHash
                        nonceValue (proof proofData)
                        (publicSignals proofData) |})
    (fun error =>
       {| status := 500; body := FailureBody (error_message error) |}).

End Server.

(** ** Reference definitions for the stated properties *)

(** The term [byte[i] * 256^i]. *)
Definition loop_term (bytes : list byte) (i : nat) : Z :=
  byte_at bytes i * 256 ^ Z.of_nat i.

(** The sum of [byte[i] * 256^i] over [i] in [[0, min(len, 31))]. *)
Definition little_endian_sum (bytes : list byte) : Z :=
  fold_right Z.add 0
    (map (loop_term bytes) (seq 0 (Nat.min (List.length bytes) 31))).

(** A non-negative integer written in decimal digits. *)
Definition is_field_string (v : value) : bool :=
  match v with
  | VStr (c :: s) => forallb (fun d => (48 <=? d) && (d <=? 57))%N (c :: s)
  | _ => false
  end.

(** Witness completeness as section 4.4 words it: the six fields present, each
    parseable as a non-negative integer string. *)
Definition witness_complete (req_body : value) : bool :=
  match req_body with
  | VObj props =>
      forallb (fun key => is_field_string (lookup (lit key) props))
        ["username"; "password"; "username_hash"; "credential_hash";
         "nonce"; "result_hash"]%string
  | _ => false
  end.

(** A pattern of single decimal digits, as the pattern grid produces. *)
Definition digit_pattern (pattern : list Z) : Prop :=
  Forall (fun d => 0 <= d <= 9) pattern.

(** [passwordField] of line 205 for a pattern of integers. *)
Definition passwordField_of (pattern : list Z) : jsstring :=
  stringToFieldElement (Array_join [] (map VNum pattern)).

(** The scalar field of the BN254 curve that snarkjs and circomlibjs compute
    in. *)
Definition bn254_scalar_modulus : Z :=
  21888242871839275222246405745257275088548364400416034343698204186575808495617.

(** A code unit that is a decimal digit. *)
Definition digit_unit (c : N) : Prop := (48 <= c <= 57)%N.

(** Little-endian value of a whole byte list. *)
Fixpoint le_value (bytes : list byte) : Z :=
  match bytes with
  | [] => 0
  | x :: rest => Z.of_N (Byte.to_N x) + 256 * le_value rest
  end.

(** The code unit of a decimal digit. *)
Definition digit_char (d : Z) : N := Z.to_N (48 + d).

(** The bytes that line 205 encodes for a pattern of digits. *)
Definition pattern_bytes (pattern : list Z) : list byte :=
  map (fun d => byte_of_N (digit_char d)) pattern.

(** [m] returns [x] (it does not throw). *)
Definition returns {A} (m : M A) (x : A) : Prop := snd m = inr x.

Definition is_poseidon_call (ev : event) : bool :=
  match ev with
  | CallPoseidon _ => true
  | _ => false
  end.

(** The six witness fields as [/api/generate-proof] reads them. *)
Definition six_fields (props : list (jsstring * value)) : list value :=
  map (fun key => lookup (lit key) props)
    ["username"; "password"; "username_hash"; "credential_hash"; "nonce";
     "result_hash"]%string.

(** The witness [/api/generate-proof] hands to [generateProof]. *)
Definition witness_of (props : list (jsstring * value)) : CircuitInputs :=
  {| username := lookup (lit "username") props;
     password := lookup (lit "password") props;
     username_hash := lookup (lit "username_hash") props;
     credential_hash := lookup (lit "credential_hash") props;
     nonce := lookup (lit "nonce") props;
     result_hash := lookup (lit "result_hash") props |}.

(** Names for the values of lines 204-229, given the request's properties
    [props], the pattern's elements and the results of the later steps. *)
Definition usernameField_of (props : list (jsstring * value)) : jsstring :=
  stringToFieldElement (ToString (lookup (lit "username") props)).

Definition username_int (props : list (jsstring * value)) : Z :=
  field_value (TextEncoder_encode (ToString (lookup (lit "username") props))).

Definition pattern_int (elems : list value) : Z :=
  field_value (TextEncoder_encode (Array_join [] elems)).

Definition auth_inputs (props : list (jsstring * value)) (elems : list value)
    (nonceValue : value) (h1 h2 h3 : jsstring) : CircuitInputs :=
  {| username := VStr (usernameField_of props);
     password := VStr (stringToFieldElement (Array_join [] elems));
     username_hash := VStr h1;
     credential_hash := VStr h2;
     nonce := VStr (ToString nonceValue);
     result_hash := VStr h3 |}.

(** Every step of the derivation went through: the request is valid, the
    username and the pattern were converted to strings, the three hashes
    returned [h1], [h2], [h3], the nonce resolved to [nonceValue], and
    [BigInt] accepted the credential hash and the nonce as [c] and [n]. *)
Record derivation (world : World) (props : list (jsstring * value))
    (elems : list value) (nonceValue : value) (c n : Z)
    (h1 h2 h3 : jsstring) : Prop := {
  d_username : truthy (lookup (lit "username") props) = true;
  d_pattern : lookup (lit "pattern") props = VArr elems;
  d_username_string : String_throws (lookup (lit "username") props) = false;
  d_pattern_string : existsb String_throws elems = false;
  d_usernameHash : returns (hashWithPoseidon world [username_int props]) h1;
  d_credentialHash :
    returns (hashWithPoseidon world [username_int props; pattern_int elems]) h2;
  d_nonce :
    returns (nonce_or_random world (lookup (lit "nonce") props)) nonceValue;
  d_credential_int : BigInt (VStr h2) = inr c;
  d_nonce_int : BigInt nonceValue = inr n;
  d_resultHash : returns (hashWithPoseidon world [c; n]) h3
}.

(** [t] recorded before a run [p]. *)
Definition prepend {X} (t : list event) (p : list event * X)
  : list event * X :=
  (t ++ fst p, snd p).

(** ** A sample world and sample requests *)

(** A stand-in for Poseidon (a polynomial fold, returned as a bigint) and a
    prover that answers with a fixed raw proof and echoes the three public
    commitments. *)
Definition sample_world : World :=
  {| buildPoseidon :=
       inr (fun inputs =>
              inr (HR_bigint (fold_left (fun acc x => acc * 31 + x) inputs 17)));
     groth16_fullProve :=
       fun inputs =>
         inr ({| pi_a := [lit "11"; lit "12"; lit "1"];
                 pi_b := [[lit "21"; lit "22"]; [lit "23"; lit "24"];
                          [lit "1"; lit "0"]];
                 pi_c := [lit "31"; lit "32"; lit "1"] |},
              [ToString (username_hash inputs);
               ToString (credential_hash inputs);
               ToString (result_hash inputs)]);
     Math_random_scaled := 424242 |}.

(** The request of the README's full authentication example. *)
Definition sample_auth_request : value :=
  VObj [(lit "username", VStr (lit "testuser"));
        (lit "pattern", VArr [VNum 0; VNum 1; VNum 2; VNum 4; VNum 8]);
        (lit "nonce", VNum 12345)].


(** A six-field request whose [username] is not a number. *)
Definition sample_unparseable_witness : value :=
  VObj [(lit "username", VStr (lit "abc"));
        (lit "password", VStr (lit "241393873200"));
        (lit "username_hash", VStr (lit "1"));
        (lit "credential_hash", VStr (lit "2"));
        (lit "nonce", VStr (lit "12345"));
        (lit "result_hash", VStr (lit "3"))].

(** A six-field request that lacks [nonce]. *)
Definition sample_incomplete_witness : value :=
  VObj [(lit "username", VStr (lit "8243121641273648500"));
        (lit "password", VStr (lit "241393873200"));
        (lit "username_hash", VStr (lit "1"));
        (lit "credential_hash", VStr (lit "2"));
        (lit "result_hash", VStr (lit "3"))].

(** ** Requests and counters used by the further properties *)

(** Element-wise [BigInt], stopping at the first element that throws: the
    value of [inputs.map(i => BigInt(i))] on line 120. *)
Fixpoint BigInt_each (elems : list value) : result (list Z) :=
  match elems with
  | [] => inr []
  | x :: rest =>
      match BigInt x with
      | inl e => inl e
      | inr y =>
          match BigInt_each rest with
          | inl e => inl e
          | inr ys => inr (y :: ys)
          end
      end
  end.

Definition is_prover_call (ev : event) : bool :=
  match ev with
  | CallFullProve _ => true
  | _ => false
  end.

(** How many times a trace calls [groth16.fullProve]. *)
Definition prover_calls (t : list event) : nat :=
  List.length (filter is_prover_call t).

(** Code units of 16 bits, none of them U+0000. *)
Definition nul_free (s : jsstring) : Prop :=
  Forall (fun c => (0 < c < 65536)%N) s.

(** The body [{inputs: [...]}]. *)
Definition hash_request (elems : list value) : value :=
  VObj [(lit "inputs", VArr elems)].

(** The body [{value: v}]. *)
Definition field_request (v : value) : value :=
  VObj [(lit "value", v)].

(** The body [{username, pattern, nonce}]. *)
Definition auth_request (user pattern supplied : value) : value :=
  VObj [(lit "username", user); (lit "pattern", pattern);
        (lit "nonce", supplied)].

(** The six fields of a witness as a request body. *)
Definition witness_request (w : CircuitInputs) : value :=
  VObj [(lit "username", username w);
        (lit "password", password w);
        (lit "username_hash", username_hash w);
        (lit "credential_hash", credential_hash w);
        (lit "nonce", nonce w);
        (lit "result_hash", result_hash w)].

(** A world whose Poseidon cannot be built. *)
Definition broken_hash_world : World :=
  {| buildPoseidon := inl (Thrown (Library (lit "poseidon constants missing")));
     groth16_fullProve := groth16_fullProve sample_world;
     Math_random_scaled := 7 |}.

(** A world whose prover throws. *)
Definition failing_prover_world : World :=
  {| buildPoseidon := buildPoseidon sample_world;
     groth16_fullProve :=
       fun _ => inl (Thrown (Library (lit "circuit.wasm not found")));
     Math_random_scaled := 7 |}.

(** A world whose prover resolves to a proof with a single row of [pi_b]. *)
Definition short_proof_world : World :=
  {| buildPoseidon := buildPoseidon sample_world;
     groth16_fullProve :=
       fun _ => inr ({| pi_a := [lit "11"; lit "12"];
                        pi_b := [[lit "21"; lit "22"]];
                        pi_c := [lit "31"; lit "32"] |}, []);
     Math_random_scaled := 7 |}.

(** * Properties *)

(** ** The encoding loop *)

Lemma encode_loop_sum bytes steps : forall i acc,
  encode_loop bytes steps i acc
  = acc + fold_right Z.add 0 (map (loop_term bytes) (seq i steps)).
Proof.
  induction steps as [|k IH]; intros i acc; simpl.
  - lia.
  - rewrite IH. unfold loop_term. lia.
Qed.

Lemma byte_at_range bytes i : 0 <= byte_at bytes i <= 255.
Proof.
  unfold byte_at. pose proof (Byte.to_N_bounded (nth i bytes x00)). lia.
Qed.

Lemma partial_sum_bounds bytes steps : forall i,
  0 <= fold_right Z.add 0 (map (loop_term bytes) (seq i steps))
    <= 256 ^ Z.of_nat (i + steps) - 256 ^ Z.of_nat i.
Proof.
  induction steps as [|k IH]; intros i; simpl.
  - rewrite Nat.add_0_r. lia.
  - specialize (IH (S i)).
    pose proof (byte_at_range bytes i) as Hb.
    assert (Hp : 0 < 256 ^ Z.of_nat i) by (apply Z.pow_pos_nonneg; lia).
    replace (i + S k)%nat with (S i + k)%nat by lia.
    assert (Hs : 256 ^ Z.of_nat (S i) = 256 * 256 ^ Z.of_nat i).
    { rewrite Nat2Z.inj_succ, Z.pow_succ_r by lia. reflexivity. }
    rewrite Hs in IH.
    assert (Ht : 0 <= loop_term bytes i <= 255 * 256 ^ Z.of_nat i)
      by (unfold loop_term; nia).
    lia.
Qed.

Lemma field_value_sum bytes : field_value bytes = little_endian_sum bytes.
Proof.
  unfold field_value, little_endian_sum. rewrite encode_loop_sum. lia.
Qed.

Lemma field_value_bounds bytes : 0 <= field_value bytes < 2 ^ 248.
Proof.
  unfold field_value. rewrite encode_loop_sum.
  pose proof (partial_sum_bounds bytes (Nat.min (List.length bytes) 31) 0) as H.
  simpl Nat.add in H.
  assert (Hle : 256 ^ Z.of_nat (Nat.min (List.length bytes) 31) <= 256 ^ 31).
  { apply Z.pow_le_mono_r; lia. }
  change (256 ^ Z.of_nat 0) with 1 in H.
  change (2 ^ 248) with (256 ^ 31). lia.
Qed.

Lemma encode_loop_ext (b1 b2 : list byte) steps : forall i acc,
  (forall j, (i <= j < i + steps)%nat -> nth j b1 x00 = nth j b2 x00) ->
  encode_loop b1 steps i acc = encode_loop b2 steps i acc.
Proof.
  induction steps as [|k IH]; intros i acc H; simpl; [reflexivity|].
  unfold byte_at. rewrite (H i) by lia.
  apply IH. intros j Hj. apply H. lia.
Qed.

Lemma nth_firstn_below {A} (n j : nat) (l : list A) d :
  (j < n)%nat -> nth j (firstn n l) d = nth j l d.
Proof.
  revert j l. induction n as [|n IH]; intros j l Hj; [lia|].
  destruct l as [|x l]; simpl; [destruct j; reflexivity|].
  destruct j; [reflexivity|]. apply IH. lia.
Qed.

Lemma field_value_firstn bytes :
  field_value bytes = field_value (firstn 31 bytes).
Proof.
  unfold field_value.
  assert (Hlen : Nat.min (List.length (firstn 31 bytes)) 31
                 = Nat.min (List.length bytes) 31).
  { rewrite length_firstn. lia. }
  rewrite Hlen. apply encode_loop_ext.
  intros j Hj. symmetry. apply nth_firstn_below. lia.
Qed.

Lemma firstn_app_long {A} (n : nat) (l suffix : list A) :
  (n <= List.length l)%nat -> firstn n (l ++ suffix) = firstn n l.
Proof.
  intros H. rewrite firstn_app.
  replace (n - List.length l)%nat with 0%nat by lia.
  simpl. apply app_nil_r.
Qed.

(** ** Decimal rendering and [BigInt] parsing *)

Lemma digits_of_uint_digit u : Forall digit_unit (digits_of_uint u).
Proof.
  induction u; simpl; constructor; try assumption; unfold digit_unit; lia.
Qed.

Lemma uint_of_digits_of_uint u : uint_of_digits (digits_of_uint u) = Some u.
Proof.
  induction u; simpl; try rewrite IHu; reflexivity.
Qed.

Lemma digits_of_uint_nonnil u : u <> Nil -> digits_of_uint u <> [].
Proof.
  destruct u; simpl; intros H; try discriminate. now elim H.
Qed.

Lemma digit_not_whitespace c : digit_unit c -> is_whitespace c = false.
Proof.
  unfold digit_unit, is_whitespace. intros H.
  repeat match goal with
         | |- context [N.eqb c ?k] =>
             replace (N.eqb c k) with false by (symmetry; apply N.eqb_neq; lia)
         end.
  replace (N.leb 8192 c) with false by (symmetry; apply N.leb_gt; lia).
  reflexivity.
Qed.

Lemma trim_start_head c s :
  is_whitespace c = false -> trim_start (c :: s) = c :: s.
Proof.
  intros H. simpl. now rewrite H.
Qed.

Lemma trim_no_whitespace s :
  Forall (fun c => is_whitespace c = false) s -> trim s = s.
Proof.
  intros H. unfold trim.
  assert (Hs : trim_start s = s).
  { destruct s; [reflexivity|]. inversion H; subst. now apply trim_start_head. }
  rewrite Hs.
  assert (Hr : trim_start (List.rev s) = List.rev s).
  { apply Forall_rev in H. destruct (List.rev s); [reflexivity|].
    inversion H; subst. now apply trim_start_head. }
  rewrite Hr. apply rev_involutive.
Qed.

Lemma radix_prefix_digits s : Forall digit_unit s -> radix_prefix s = None.
Proof.
  intros H. destruct s as [|c0 [|c1 ds]]; try reflexivity.
  inversion H as [|? ? _ H1]; subst. inversion H1 as [|? ? Hc1 _]; subst.
  unfold digit_unit in Hc1. unfold radix_prefix.
  destruct (N.eqb c0 48); [|reflexivity].
  repeat match goal with
         | |- context [N.eqb c1 ?k] =>
             replace (N.eqb c1 k) with false by (symmetry; apply N.eqb_neq; lia)
         end.
  reflexivity.
Qed.

Lemma StringToBigInt_digits u :
  u <> Nil -> StringToBigInt (digits_of_uint u) = Some (Z.of_uint u).
Proof.
  intros Hu. unfold StringToBigInt.
  pose proof (digits_of_uint_digit u) as Hd.
  rewrite trim_no_whitespace
    by (eapply Forall_impl; [|exact Hd]; apply digit_not_whitespace).
  pose proof (radix_prefix_digits _ Hd) as Hr.
  pose proof (uint_of_digits_of_uint u) as Hp.
  pose proof (digits_of_uint_nonnil u Hu) as Hn.
  destruct (digits_of_uint u) as [|c0 rest]; [now elim Hn|].
  rewrite Hr. inversion Hd as [|? ? Hc0 _]; subst. unfold digit_unit in Hc0.
  replace (N.eqb c0 43) with false by (symmetry; apply N.eqb_neq; lia).
  replace (N.eqb c0 45) with false by (symmetry; apply N.eqb_neq; lia).
  unfold parse_decimal. rewrite Hp. reflexivity.
Qed.

Lemma StringToBigInt_minus_digits u :
  u <> Nil ->
  StringToBigInt (45%N :: digits_of_uint u) = Some (- Z.of_uint u).
Proof.
  intros Hu. unfold StringToBigInt.
  pose proof (digits_of_uint_digit u) as Hd.
  rewrite trim_no_whitespace.
  2:{ constructor; [reflexivity|].
      eapply Forall_impl; [|exact Hd]. apply digit_not_whitespace. }
  pose proof (uint_of_digits_of_uint u) as Hp.
  pose proof (digits_of_uint_nonnil u Hu) as Hn.
  destruct (digits_of_uint u) as [|c0 rest]; [now elim Hn|].
  change (radix_prefix (45%N :: c0 :: rest)) with (@None (Z * jsstring)).
  change (N.eqb 45 43) with false. change (N.eqb 45 45) with true.
  cbv iota. unfold parse_decimal. rewrite Hp. reflexivity.
Qed.

(** Parsing what [toString] rendered gives the integer back. *)
Lemma StringToBigInt_toString z : StringToBigInt (BigInt_toString z) = Some z.
Proof.
  unfold BigInt_toString. pose proof (DecimalZ.of_to z) as Hz.
  destruct z as [|p|p]; simpl in *.
  - reflexivity.
  - rewrite StringToBigInt_digits by apply DecimalPos.Unsigned.to_uint_nonnil.
    f_equal. exact Hz.
  - rewrite StringToBigInt_minus_digits by apply DecimalPos.Unsigned.to_uint_nonnil.
    f_equal. exact Hz.
Qed.

Lemma BigInt_toString_inj z1 z2 :
  BigInt_toString z1 = BigInt_toString z2 -> z1 = z2.
Proof.
  intros H. apply (f_equal StringToBigInt) in H.
  rewrite !StringToBigInt_toString in H. now inversion H.
Qed.

Lemma BigInt_of_toString z : BigInt (VStr (BigInt_toString z)) = inr z.
Proof.
  simpl. unfold BigInt_of_string. now rewrite StringToBigInt_toString.
Qed.

Lemma BigInt_stringToFieldElement str :
  BigInt (VStr (stringToFieldElement str))
  = inr (field_value (TextEncoder_encode str)).
Proof. apply BigInt_of_toString. Qed.

(** ** The field encoder *)

Example stringToFieldElement_testuser :
  stringToFieldElement (lit "testuser") = lit "8243121641273648500".
Proof. reflexivity. Qed.

Example stringToFieldElement_empty : stringToFieldElement [] = lit "0".
Proof. reflexivity. Qed.

(** The README's witness for the pattern [[0, 1, 2, 4, 8]]. *)
Example passwordField_of_readme :
  passwordField_of [0; 1; 2; 4; 8] = lit "241393873200".
Proof. vm_compute. reflexivity. Qed.

(** C2: for every string [str] with UTF-8 bytes [b], [stringToFieldElement]
    returns the decimal rendering of the sum of [b[i] * 256^i] over
    [i < min(len b, 31)]; read back as an integer the returned string is that
    sum. The function is total, so it is deterministic and cannot fail. *)
Theorem stringToFieldElement_little_endian (str : jsstring) :
  let b := TextEncoder_encode str in
  stringToFieldElement str = BigInt_toString (little_endian_sum b)
  /\ StringToBigInt (stringToFieldElement str) = Some (little_endian_sum b).
Proof.
  intros b. unfold stringToFieldElement. fold b.
  rewrite field_value_sum. split; [reflexivity|].
  apply StringToBigInt_toString.
Qed.

(** C6: the encoding of a string is the encoding of the first 31 bytes of its
    UTF-8 form; bytes appended after the 31st change nothing; two strings with
    the same first 31 bytes encode identically. *)
Theorem stringToFieldElement_truncation (str other : jsstring)
    (suffix : list byte) :
  let bytes := TextEncoder_encode str in
  stringToFieldElement str = BigInt_toString (field_value (firstn 31 bytes))
  /\ ((31 <= List.length bytes)%nat ->
      BigInt_toString (field_value (bytes ++ suffix)) = stringToFieldElement str)
  /\ (firstn 31 (TextEncoder_encode other) = firstn 31 bytes ->
      stringToFieldElement other = stringToFieldElement str).
Proof.
  intros bytes. unfold stringToFieldElement. fold bytes. repeat split.
  - now rewrite <- field_value_firstn.
  - intros Hlen. rewrite (field_value_firstn (bytes ++ suffix)).
    rewrite firstn_app_long by exact Hlen.
    now rewrite <- field_value_firstn.
  - intros Heq. rewrite (field_value_firstn (TextEncoder_encode other)), Heq.
    now rewrite <- field_value_firstn.
Qed.

Lemma stringToFieldElement_truncation_witness :
  let str := lit "abcdefghijklmnopqrstuvwxyz01234" in
  let other := lit "abcdefghijklmnopqrstuvwxyz01234 and a tail" in
  let bytes := TextEncoder_encode str in
  (31 <= List.length bytes)%nat
  /\ firstn 31 (TextEncoder_encode other) = firstn 31 bytes
  /\ BigInt_toString (field_value (bytes ++ [x41; x42]))
     = stringToFieldElement str
  /\ stringToFieldElement other = stringToFieldElement str.
Proof.
  intros str other bytes.
  pose proof (stringToFieldElement_truncation str other [x41; x42]) as H.
  cbv zeta in H. destruct H as [_ [Happ Hsame]].
  assert (Hlen : (31 <= List.length bytes)%nat) by (vm_compute; lia).
  assert (Hpre : firstn 31 (TextEncoder_encode other) = firstn 31 bytes)
    by (vm_compute; reflexivity).
  exact (conj Hlen (conj Hpre (conj (Happ Hlen) (Hsame Hpre)))).
Defined.

(** C8: the integer that [stringToFieldElement] renders is non-negative and
    below 2^248, hence below any modulus of more than 248 bits: reducing it
    modulo the field changes nothing. *)
Theorem stringToFieldElement_below_modulus (str : jsstring) (modulus : Z)
    (Hmodulus : 2 ^ 248 <= modulus) :
  exists v,
    StringToBigInt (stringToFieldElement str) = Some v
    /\ 0 <= v < 2 ^ 248 /\ v < modulus /\ v mod modulus = v.
Proof.
  exists (field_value (TextEncoder_encode str)).
  pose proof (field_value_bounds (TextEncoder_encode str)) as Hb.
  split; [apply StringToBigInt_toString|].
  split; [exact Hb|]. split; [lia|]. apply Z.mod_small. lia.
Qed.

Lemma stringToFieldElement_below_modulus_witness :
  2 ^ 248 <= bn254_scalar_modulus
  /\ exists v,
       StringToBigInt (stringToFieldElement (lit "testuser")) = Some v
       /\ 0 <= v < 2 ^ 248 /\ v < bn254_scalar_modulus
       /\ v mod bn254_scalar_modulus = v.
Proof.
  assert (H : 2 ^ 248 <= bn254_scalar_modulus)
    by (apply Z.leb_le; vm_compute; reflexivity).
  exact (conj H (stringToFieldElement_below_modulus (lit "testuser")
                   bn254_scalar_modulus H)).
Defined.

(** ** Patterns of digits *)

Lemma le_value_nonneg bytes : 0 <= le_value bytes.
Proof. induction bytes; cbn [le_value]; lia. Qed.

Lemma index_sum_le_value bytes : forall pre,
  fold_right Z.add 0
    (map (loop_term (pre ++ bytes))
       (seq (List.length pre) (List.length bytes)))
  = 256 ^ Z.of_nat (List.length pre) * le_value bytes.
Proof.
  induction bytes as [|x rest IH]; intros pre.
  - cbn [List.length seq map fold_right le_value]. lia.
  - specialize (IH (pre ++ [x])).
    rewrite <- app_assoc in IH. change ([x] ++ rest) with (x :: rest) in IH.
    rewrite length_app in IH. cbn [List.length] in IH.
    replace (List.length pre + 1)%nat with (S (List.length pre)) in IH by lia.
    cbn [List.length seq map fold_right le_value].
    rewrite IH. unfold loop_term, byte_at. rewrite nth_middle.
    rewrite Nat2Z.inj_succ, Z.pow_succ_r by lia. lia.
Qed.

Lemma field_value_short bytes :
  (List.length bytes <= 31)%nat -> field_value bytes = le_value bytes.
Proof.
  intros H. unfold field_value. rewrite encode_loop_sum.
  rewrite Nat.min_l by exact H.
  pose proof (index_sum_le_value bytes []) as Hs.
  change ([] ++ bytes) with bytes in Hs.
  change (List.length (@nil byte)) with 0%nat in Hs. rewrite Hs.
  change (256 ^ Z.of_nat 0) with 1. lia.
Qed.

Lemma byte_to_N_inj x y : Byte.to_N x = Byte.to_N y -> x = y.
Proof.
  intros H. pose proof (Byte.of_to_N x) as Hx. rewrite H in Hx.
  rewrite Byte.of_to_N in Hx. now inversion Hx.
Qed.

Lemma le_value_inj b1 : forall b2,
  Forall (fun x => x <> x00) b1 -> Forall (fun x => x <> x00) b2 ->
  le_value b1 = le_value b2 -> b1 = b2.
Proof.
  assert (Hpos : forall x rest, x <> x00 -> 0 < le_value (x :: rest)).
  { intros x rest Hx. cbn [le_value]. pose proof (le_value_nonneg rest).
    assert (Byte.to_N x <> 0%N).
    { intros E. apply Hx. apply byte_to_N_inj. exact E. }
    lia. }
  induction b1 as [|x r1 IH]; intros [|y r2] H1 H2 Heq.
  - reflexivity.
  - inversion H2; subst. pose proof (Hpos y r2 ltac:(assumption)) as Hp.
    rewrite <- Heq in Hp. cbn [le_value] in Hp. lia.
  - inversion H1; subst. pose proof (Hpos x r1 ltac:(assumption)) as Hp.
    rewrite Heq in Hp. cbn [le_value] in Hp. lia.
  - inversion H1; inversion H2; subst. cbn [le_value] in Heq.
    pose proof (Byte.to_N_bounded x). pose proof (Byte.to_N_bounded y).
    assert (Hxy : Byte.to_N x = Byte.to_N y) by lia.
    assert (Hr : le_value r1 = le_value r2) by lia.
    f_equal; [now apply byte_to_N_inj | now apply IH].
Qed.

Lemma byte_of_N_to_N n : Byte.to_N (byte_of_N n) = (n mod 256)%N.
Proof.
  unfold byte_of_N. destruct (Byte.of_N (n mod 256)) as [b|] eqn:E.
  - now apply Byte.to_of_N.
  - apply Byte.of_N_None_iff in E.
    pose proof (N.mod_lt n 256 ltac:(discriminate)). lia.
Qed.

Lemma ToString_digit d : 0 <= d <= 9 -> ToString (VNum d) = [digit_char d].
Proof.
  intros H.
  assert (Hd : d = 0 \/ d = 1 \/ d = 2 \/ d = 3 \/ d = 4 \/ d = 5 \/ d = 6
               \/ d = 7 \/ d = 8 \/ d = 9) by lia.
  repeat (destruct Hd as [Hd|Hd]; [subst; reflexivity|]). subst; reflexivity.
Qed.

Lemma Array_join_digits pattern :
  digit_pattern pattern ->
  Array_join [] (map VNum pattern) = map digit_char pattern.
Proof.
  unfold digit_pattern.
  induction pattern as [|d rest IH]; intros H; [reflexivity|].
  inversion H as [|? ? Hd Hrest]; subst. specialize (IH Hrest).
  cbn [map Array_join]. rewrite ToString_digit by exact Hd.
  destruct rest as [|d' rest']; [reflexivity|].
  cbn [map] in *. rewrite IH. reflexivity.
Qed.

Lemma TextEncoder_encode_ascii str :
  Forall (fun c => (c < 128)%N) str ->
  TextEncoder_encode str = map byte_of_N str.
Proof.
  unfold TextEncoder_encode.
  induction str as [|c rest IH]; intros H; [reflexivity|].
  inversion H as [|? ? Hc Hrest]; subst. specialize (IH Hrest).
  cbn [scalar_values].
  replace (is_high_surrogate c) with false
    by (symmetry; unfold is_high_surrogate; apply andb_false_iff; left;
        apply N.leb_gt; lia).
  replace (is_low_surrogate c) with false
    by (symmetry; unfold is_low_surrogate; apply andb_false_iff; left;
        apply N.leb_gt; lia).
  cbn [flat_map map]. rewrite IH. unfold utf8_bytes.
  replace (N.ltb c 128) with true by (symmetry; apply N.ltb_lt; lia).
  reflexivity.
Qed.

Lemma pattern_bytes_encode pattern :
  digit_pattern pattern ->
  TextEncoder_encode (Array_join [] (map VNum pattern)) = pattern_bytes pattern.
Proof.
  intros H. rewrite Array_join_digits by exact H.
  rewrite TextEncoder_encode_ascii.
  - unfold pattern_bytes. now rewrite map_map.
  - apply Forall_map. eapply Forall_impl; [|exact H].
    intros d Hd. unfold digit_char. simpl in Hd. lia.
Qed.

Lemma digit_byte_to_N d :
  0 <= d <= 9 -> Byte.to_N (byte_of_N (digit_char d)) = Z.to_N (48 + d).
Proof.
  intros H. rewrite byte_of_N_to_N. unfold digit_char.
  apply N.mod_small. lia.
Qed.

Lemma pattern_bytes_nonzero pattern :
  digit_pattern pattern -> Forall (fun x => x <> x00) (pattern_bytes pattern).
Proof.
  intros H. unfold pattern_bytes. apply Forall_map.
  eapply Forall_impl; [|exact H]. intros d Hd E. simpl in Hd.
  apply (f_equal Byte.to_N) in E. rewrite digit_byte_to_N in E by exact Hd.
  change (Byte.to_N x00) with 0%N in E. lia.
Qed.

Lemma pattern_bytes_inj p1 : forall p2,
  digit_pattern p1 -> digit_pattern p2 ->
  pattern_bytes p1 = pattern_bytes p2 -> p1 = p2.
Proof.
  unfold digit_pattern.
  induction p1 as [|d1 r1 IH]; intros [|d2 r2] H1 H2 Heq;
    try discriminate; [reflexivity|].
  inversion H1; inversion H2; subst. cbn [pattern_bytes map] in Heq.
  inversion Heq as [[Hd Hr]].
  apply (f_equal Byte.to_N) in Hd.
  rewrite !digit_byte_to_N in Hd by assumption.
  f_equal; [lia | now apply IH].
Qed.

Lemma passwordField_of_inj p1 p2 :
  digit_pattern p1 -> digit_pattern p2 ->
  (List.length p1 <= 31)%nat -> (List.length p2 <= 31)%nat ->
  passwordField_of p1 = passwordField_of p2 -> p1 = p2.
Proof.
  intros H1 H2 L1 L2 Heq. unfold passwordField_of, stringToFieldElement in Heq.
  apply BigInt_toString_inj in Heq.
  rewrite !pattern_bytes_encode in Heq by assumption.
  rewrite !field_value_short in Heq
    by (unfold pattern_bytes; rewrite length_map; assumption).
  apply le_value_inj in Heq; try (apply pattern_bytes_nonzero; assumption).
  now apply pattern_bytes_inj.
Qed.

(** ** Running the monad *)

Lemma bind_ret_l {A B} (x : A) (k : A -> M B) : bind (ret x) k = k x.
Proof. unfold bind, ret. now destruct (k x). Qed.

Lemma bind_throw {A B} (e : exn) (k : A -> M B) : bind (throw e) k = throw e.
Proof. reflexivity. Qed.

Lemma bind_emit {B} (ev : event) (k : unit -> M B) :
  bind (emit ev) k = (ev :: fst (k tt), snd (k tt)).
Proof. unfold bind, emit. now destruct (k tt). Qed.

Lemma bind_lift {A B} (r : result A) (k : A -> M B) :
  bind (lift r) k = match r with inl e => throw e | inr x => k x end.
Proof. destruct r; [reflexivity|]. apply bind_ret_l. Qed.

Lemma bind_run {A B} (m : M A) (k : A -> M B) :
  bind m k
  = match snd m with
    | inl e => (fst m, inl e)
    | inr x => (fst m ++ fst (k x), snd (k x))
    end.
Proof. destruct m as [t [e|x]]; simpl; [reflexivity|]. now destruct (k x). Qed.

Lemma handle_trace (m : M response) (on_error : exn -> response) :
  fst (handle m on_error) = fst m.
Proof. now destruct m as [t [e|r]]. Qed.

Lemma get_prop_object props key : get_prop (VObj props) key = ret (lookup key props).
Proof. reflexivity. Qed.

(** ** [generateProof] *)

Lemma generateProof_trace world inputs :
  fst (generateProof world inputs) = [CallFullProve inputs].
Proof.
  unfold generateProof, try_catch. rewrite bind_emit, bind_lift.
  destruct (groth16_fullProve world inputs) as [e|[raw sigs]]; [reflexivity|].
  unfold index2.
  destruct (index (pi_b raw) 0) as [r0|]; [|reflexivity].
  rewrite !bind_ret_l.
  destruct (index (pi_b raw) 1) as [r1|]; reflexivity.
Qed.

Lemma generateProof_rows world inputs raw sigs r0 r1 :
  groth16_fullProve world inputs = inr (raw, sigs) ->
  index (pi_b raw) 0 = Some r0 -> index (pi_b raw) 1 = Some r1 ->
  generateProof world inputs
  = ([CallFullProve inputs],
     inr {| proof :=
              ZKProofData.make
                [index (pi_a raw) 0; index (pi_a raw) 1]
                [[index r0 1; index r0 0]; [index r1 1; index r1 0]]
                [index (pi_c raw) 0; index (pi_c raw) 1];
            publicSignals := sigs |}).
Proof.
  intros Hraw H0 H1. unfold generateProof, try_catch.
  rewrite bind_emit, bind_lift, Hraw. unfold index2. rewrite H0, H1.
  rewrite !bind_ret_l. reflexivity.
Qed.

Lemma generateProof_returns_rows world inputs raw sigs result :
  groth16_fullProve world inputs = inr (raw, sigs) ->
  returns (generateProof world inputs) result ->
  exists r0 r1,
    index (pi_b raw) 0 = Some r0 /\ index (pi_b raw) 1 = Some r1.
Proof.
  unfold returns, generateProof, try_catch. intros Hraw.
  rewrite bind_emit, bind_lift, Hraw. unfold index2.
  destruct (index (pi_b raw) 0) as [r0|]; [|discriminate].
  rewrite !bind_ret_l.
  destruct (index (pi_b raw) 1) as [r1|]; [|discriminate].
  intros _. now exists r0, r1.
Qed.

(** C3: whatever raw proof the prover resolves to, an artifact is returned
    exactly when rows 0 and 1 of [pi_b] exist, and then row [i] of [b] is
    [[pi_b[i][1], pi_b[i][0]]] while [a] and [c] are the first two coordinates
    of [pi_a] and [pi_c] in their own order. *)
Theorem generateProof_swaps_b (world : World) (inputs : CircuitInputs)
    (raw : RawProof) (sigs : list jsstring) (result : ProofResult) :
  groth16_fullProve world inputs = inr (raw, sigs) ->
  (returns (generateProof world inputs) result <->
   exists r0 r1,
     index (pi_b raw) 0 = Some r0 /\ index (pi_b raw) 1 = Some r1
     /\ ZKProofData.b (proof result)
        = [[index r0 1; index r0 0]; [index r1 1; index r1 0]]
     /\ ZKProofData.a (proof result) = [index (pi_a raw) 0; index (pi_a raw) 1]
     /\ ZKProofData.c (proof result) = [index (pi_c raw) 0; index (pi_c raw) 1]
     /\ publicSignals result = sigs).
Proof.
  intros Hraw. split.
  - intros Hret.
    destruct (generateProof_returns_rows _ _ _ _ _ Hraw Hret) as (r0 & r1 & H0 & H1).
    exists r0, r1. unfold returns in Hret.
    rewrite (generateProof_rows _ _ _ _ _ _ Hraw H0 H1) in Hret.
    inversion Hret; subst. simpl. repeat split; assumption.
  - intros (r0 & r1 & H0 & H1 & Hb & Ha & Hc & Hs). unfold returns.
    rewrite (generateProof_rows _ _ _ _ _ _ Hraw H0 H1). simpl.
    destruct result as [[ra rb rc] rs]. simpl in *. now subst.
Qed.

Lemma generateProof_swaps_b_witness :
  let inputs := {| username := VStr (lit "1"); password := VStr (lit "2");
                   username_hash := VStr (lit "3");
                   credential_hash := VStr (lit "4");
                   nonce := VStr (lit "5"); result_hash := VStr (lit "6") |} in
  exists result,
    returns (generateProof sample_world inputs) result
    /\ ZKProofData.b (proof result)
       = [[Some (lit "22"); Some (lit "21")]; [Some (lit "24"); Some (lit "23")]]
    /\ ZKProofData.a (proof result) = [Some (lit "11"); Some (lit "12")]
    /\ ZKProofData.c (proof result) = [Some (lit "31"); Some (lit "32")].
Proof.
  intros inputs.
  destruct (generateProof sample_world inputs) as [t [e|result]] eqn:Hrun;
    [vm_compute in Hrun; discriminate|].
  exists result.
  assert (Hret : returns (generateProof sample_world inputs) result)
    by (unfold returns; rewrite Hrun; reflexivity).
  destruct (proj1 (generateProof_swaps_b sample_world inputs _ _ result eq_refl)
              Hret) as (r0 & r1 & H0 & H1 & Hb & Ha & Hc & _).
  vm_compute in H0, H1. inversion H0; inversion H1; subst.
  repeat split; assumption.
Defined.

(** ** [POST /api/hash] *)

(** C9: when the body has no [inputs] property, or one that is not an array,
    [/api/hash] answers 400 with an [error] property and the trace is empty:
    neither [buildPoseidon] nor the hash is called. *)
Theorem api_hash_rejects_non_array (world : World) (req_body inputs : value) :
  get_prop req_body (lit "inputs") = ret inputs ->
  Array_isArray inputs = false ->
  api_hash world req_body
  = ([], {| status := 400;
            body := ErrorBody
                      (Literal "Invalid inputs. Expected array of values.") |})
  /\ has_error_field (snd (api_hash world req_body)) = true
  /\ filter is_poseidon_call (fst (api_hash world req_body)) = [].
Proof.
  intros Hget Harr.
  assert (Hrun : api_hash world req_body
                 = ([], {| status := 400;
                           body := ErrorBody
                                     (Literal "Invalid inputs. Expected array of values.") |})).
  { unfold api_hash. rewrite Hget, bind_ret_l, Harr, orb_true_r. reflexivity. }
  rewrite Hrun. repeat split; reflexivity.
Qed.

Lemma api_hash_rejects_non_array_witness :
  let not_an_array := VObj [(lit "inputs", VStr (lit "not-an-array"))] in
  (api_hash sample_world not_an_array
   = ([], {| status := 400;
             body := ErrorBody
                       (Literal "Invalid inputs. Expected array of values.") |})
   /\ has_error_field (snd (api_hash sample_world not_an_array)) = true
   /\ filter is_poseidon_call (fst (api_hash sample_world not_an_array)) = [])
  /\ (api_hash sample_world (VObj [])
      = ([], {| status := 400;
                body := ErrorBody
                          (Literal "Invalid inputs. Expected array of values.") |})
      /\ has_error_field (snd (api_hash sample_world (VObj []))) = true
      /\ filter is_poseidon_call (fst (api_hash sample_world (VObj []))) = []).
Proof.
  intros not_an_array. split.
  - exact (api_hash_rejects_non_array sample_world not_an_array
             (VStr (lit "not-an-array")) eq_refl eq_refl).
  - exact (api_hash_rejects_non_array sample_world (VObj []) VUndefined
             eq_refl eq_refl).
Defined.

(** ** [POST /api/string-to-field] *)

(** C10: a falsy [value], the empty string among them, is answered 400 with
    [Value is required]; the trace is empty, so [stringToFieldElement] is not
    called, and the response has no [fieldElement]; yet the encoder is
    defined on the empty string, where it gives ["0"]. *)
Theorem api_string_to_field_rejects_empty (req_body v : value) :
  get_prop req_body (lit "value") = ret v ->
  truthy v = false ->
  api_string_to_field req_body
  = ([], {| status := 400; body := ErrorBody (Literal "Value is required") |})
  /\ has_fieldElement (snd (api_string_to_field req_body)) = false
  /\ truthy (VStr []) = false
  /\ stringToFieldElement [] = lit "0".
Proof.
  intros Hget Hfalsy.
  assert (Hrun : api_string_to_field req_body
                 = ([], {| status := 400;
                           body := ErrorBody (Literal "Value is required") |})).
  { unfold api_string_to_field. rewrite Hget, bind_ret_l, Hfalsy. reflexivity. }
  rewrite Hrun. repeat split; reflexivity.
Qed.

Lemma api_string_to_field_rejects_empty_witness :
  let empty_value := VObj [(lit "value", VStr [])] in
  api_string_to_field empty_value
  = ([], {| status := 400; body := ErrorBody (Literal "Value is required") |})
  /\ has_fieldElement (snd (api_string_to_field empty_value)) = false
  /\ truthy (VStr []) = false
  /\ stringToFieldElement [] = lit "0".
Proof.
  intros empty_value.
  exact (api_string_to_field_rejects_empty empty_value (VStr [])
           eq_refl eq_refl).
Defined.

(** A non-empty string is encoded. *)
Lemma api_string_to_field_accepts props c s :
  lookup (lit "value") props = VStr (c :: s) ->
  api_string_to_field (VObj props)
  = ([CallStringToField (c :: s)],
     {| status := 200;
        body := FieldElementBody (stringToFieldElement (c :: s)) |}).
Proof.
  intros H. unfold api_string_to_field.
  rewrite get_prop_object, bind_ret_l, H. reflexivity.
Qed.

(** ** [POST /api/generate-proof] *)

Lemma api_generate_proof_missing world props :
  forallb truthy (six_fields props) = false ->
  api_generate_proof world (VObj props)
  = ([], {| status := 400;
            body := ErrorBody
                      (Literal "Missing required fields: username, password, username_hash, credential_hash, nonce, result_hash") |}).
Proof.
  intros H. unfold api_generate_proof.
  rewrite !get_prop_object, !bind_ret_l.
  unfold six_fields in H. cbn [map forallb] in H.
  destruct (truthy (lookup (lit "username") props)),
           (truthy (lookup (lit "password") props)),
           (truthy (lookup (lit "username_hash") props)),
           (truthy (lookup (lit "credential_hash") props)),
           (truthy (lookup (lit "nonce") props)),
           (truthy (lookup (lit "result_hash") props));
    try reflexivity; discriminate.
Qed.

Lemma api_generate_proof_present world props :
  forallb truthy (six_fields props) = true ->
  fst (api_generate_proof world (VObj props))
  = [CallFullProve (witness_of props)]
  /\ status (snd (api_generate_proof world (VObj props))) <> 400.
Proof.
  intros H. unfold api_generate_proof.
  rewrite !get_prop_object, !bind_ret_l.
  unfold six_fields in H. cbn [map forallb] in H.
  destruct (truthy (lookup (lit "username") props)),
           (truthy (lookup (lit "password") props)),
           (truthy (lookup (lit "username_hash") props)),
           (truthy (lookup (lit "credential_hash") props)),
           (truthy (lookup (lit "nonce") props)),
           (truthy (lookup (lit "result_hash") props));
    try discriminate.
  cbn [negb orb]. fold (witness_of props).
  rewrite bind_run. pose proof (generateProof_trace world (witness_of props)) as Ht.
  destruct (generateProof world (witness_of props)) as [t [e|r]];
    simpl in *; subst; split; try reflexivity; discriminate.
Qed.

(** ** [POST /api/auth/generate-proof] *)

Lemma bind_returns_run {A B} (m : M A) (k : A -> M B) t x :
  m = (t, inr x) -> bind m k = prepend t (k x).
Proof. intros ->. unfold prepend. simpl. now destruct (k x). Qed.

Lemma bind_lift_inr {A B} (x : A) (k : A -> M B) : bind (lift (inr x)) k = k x.
Proof. apply bind_ret_l. Qed.

Lemma in_bind_inv {A B} (ev : event) (m : M A) (k : A -> M B) :
  In ev (fst (bind m k)) ->
  In ev (fst m) \/ exists x, returns m x /\ In ev (fst (k x)).
Proof.
  unfold returns. destruct m as [t [e|x]]; simpl; [now left|].
  destruct (k x) as [t' r] eqn:Hk. simpl. intros H.
  apply in_app_or in H. destruct H as [H|H]; [now left|].
  right. exists x. rewrite Hk. now split.
Qed.

Lemma returns_bind_inv {A B} (m : M A) (k : A -> M B) (y : B) :
  returns (bind m k) y -> exists x, returns m x /\ returns (k x) y.
Proof.
  unfold returns. destruct m as [t [e|x]]; simpl; [discriminate|].
  destruct (k x) as [t' r] eqn:Hk. simpl. intros ->.
  exists x. rewrite Hk. now split.
Qed.

Lemma handle_response (m : M response) on_error :
  snd (handle m on_error)
  = match snd m with inr r => r | inl e => on_error e end.
Proof. now destruct m as [t [e|r]]. Qed.

Lemma handle_prepend t (m : M response) on_error :
  handle (prepend t m) on_error = prepend t (handle m on_error).
Proof. now destruct m as [t' [e|r]]. Qed.

Lemma handle_generateProof world inputs (k : ProofResult -> response)
    on_error :
  handle (proofData <- generateProof world inputs ;; ret (k proofData))
    on_error
  = ([CallFullProve inputs],
     match snd (generateProof world inputs) with
     | inr proofData => k proofData
     | inl e => on_error e
     end).
Proof.
  pose proof (generateProof_trace world inputs) as Ht.
  destruct (generateProof world inputs) as [t [e|pd]]; simpl in *; now subst.
Qed.

Lemma call_stringToFieldElement_run str :
  call_stringToFieldElement str
  = ([CallStringToField str], inr (stringToFieldElement str)).
Proof. reflexivity. Qed.

Lemma hashWithPoseidon_no_prover world inputs w :
  ~ In (CallFullProve w) (fst (hashWithPoseidon world inputs)).
Proof.
  unfold hashWithPoseidon. rewrite bind_emit, bind_lift.
  destruct (buildPoseidon world) as [e|poseidon].
  - intros [H|[]]; discriminate.
  - rewrite bind_emit, bind_lift.
    destruct (poseidon inputs) as [e|hr]; intros [H|[H|[]]]; discriminate.
Qed.

Lemma hashWithPoseidon_returns_run world inputs h :
  returns (hashWithPoseidon world inputs) h ->
  hashWithPoseidon world inputs
  = ([CallBuildPoseidon; CallPoseidon inputs], inr h).
Proof.
  unfold returns, hashWithPoseidon. rewrite bind_emit, bind_lift.
  destruct (buildPoseidon world) as [e|poseidon]; [discriminate|].
  rewrite bind_emit, bind_lift.
  destruct (poseidon inputs) as [e|hr]; [discriminate|].
  simpl. now intros ->.
Qed.

Lemma nonce_or_random_run world supplied :
  nonce_or_random world supplied
  = if truthy supplied then ([], inr supplied)
    else ([CallRandom], inr (VNum (Math_random_scaled world))).
Proof. unfold nonce_or_random. now destruct (truthy supplied). Qed.

Lemma nonce_or_random_no_prover world supplied w :
  ~ In (CallFullProve w) (fst (nonce_or_random world supplied)).
Proof.
  rewrite nonce_or_random_run.
  destruct (truthy supplied); simpl; intros H; [exact H|].
  destruct H as [H|[]]; discriminate.
Qed.

Lemma nonce_or_random_no_hash world supplied :
  filter is_poseidon_call (fst (nonce_or_random world supplied)) = [].
Proof. rewrite nonce_or_random_run. now destruct (truthy supplied). Qed.

Lemma String_of_run v :
  String_of v
  = ([], if String_throws v then inl (Thrown (Engine TypeError))
         else inr (ToString v)).
Proof. unfold String_of. now destruct (String_throws v). Qed.

Lemma String_of_returns v s :
  returns (String_of v) s -> String_throws v = false /\ s = ToString v.
Proof.
  unfold returns. rewrite String_of_run. cbn [snd].
  destruct (String_throws v); [discriminate|]. now intros [= <-].
Qed.

Lemma join_run sep elems :
  join sep elems
  = ([], if existsb String_throws elems then inl (Thrown (Engine TypeError))
         else inr (Array_join sep elems)).
Proof. unfold join. now destruct (existsb String_throws elems). Qed.

Lemma join_returns sep elems s :
  returns (join sep elems) s ->
  existsb String_throws elems = false /\ s = Array_join sep elems.
Proof.
  unfold returns. rewrite join_run. cbn [snd].
  destruct (existsb String_throws elems); [discriminate|]. now intros [= <-].
Qed.

Lemma method_toString_returns v s :
  returns (method_toString v) s -> s = ToString v.
Proof.
  destruct v; unfold method_toString;
    try (intros H; now apply String_of_returns in H);
    unfold returns; discriminate.
Qed.

Lemma method_toString_trace v : fst (method_toString v) = [].
Proof.
  destruct v; unfold method_toString; try reflexivity;
    now rewrite String_of_run.
Qed.

(** What [BigInt] accepts, [String] converts. *)
Lemma BigInt_accepts_no_throw v n : BigInt v = inr n -> String_throws v = false.
Proof.
  destruct v; try reflexivity; unfold BigInt;
    destruct (String_throws _); try reflexivity; discriminate.
Qed.

Lemma method_toString_accepted v n :
  BigInt v = inr n -> method_toString v = ([], inr (ToString v)).
Proof.
  intros H. pose proof (BigInt_accepts_no_throw _ _ H) as Ht.
  destruct v; try discriminate; unfold method_toString;
    now rewrite String_of_run, Ht.
Qed.


Ltac peel H x E :=
  apply in_bind_inv in H; destruct H as [H | (x & E & H)].

Ltac peel_returns H x E :=
  apply returns_bind_inv in H; destruct H as (x & E & H).

(** A prover call in the trace means every earlier step went through. *)
Lemma auth_prover_call_inv world req_body w :
  In (CallFullProve w) (fst (api_auth_generate_proof world req_body)) ->
  exists props elems nonceValue c n h1 h2 h3,
    req_body = VObj props
    /\ derivation world props elems nonceValue c n h1 h2 h3
    /\ w = auth_inputs props elems nonceValue h1 h2 h3.
Proof.
  unfold api_auth_generate_proof. rewrite handle_trace.
  destruct req_body as [| |b|z|s|l|props]; try (cbn; tauto).
  rewrite !get_prop_object, !bind_ret_l.
  destruct (truthy (lookup (lit "username") props)) eqn:Huser;
    [|cbn; tauto].
  destruct (lookup (lit "pattern") props) as [| |b|z|s|elems|o] eqn:Hpattern;
    try (cbn; tauto); try (destruct b; cbn; tauto);
      try (destruct (truthy (VNum z)); cbn; tauto);
      try (destruct (truthy (VStr s)); cbn; tauto).
  cbn [truthy Array_isArray negb orb]. intros H.
  peel H us Eus; [now rewrite String_of_run in H|].
  apply String_of_returns in Eus. destruct Eus as [Hus ->].
  peel H uf Euf; [destruct H as [H|[]]; discriminate|].
  inversion Euf; subst uf; clear Euf.
  peel H js Ejs; [now rewrite join_run in H|].
  apply join_returns in Ejs. destruct Ejs as [Hjs ->].
  peel H pf Epf; [destruct H as [H|[]]; discriminate|].
  inversion Epf; subst pf; clear Epf.
  rewrite !BigInt_stringToFieldElement in H. rewrite bind_lift_inr in H.
  peel H h1 E1; [now apply hashWithPoseidon_no_prover in H|].
  rewrite !bind_lift_inr in H.
  peel H h2 E2; [now apply hashWithPoseidon_no_prover in H|].
  peel H nv En; [now apply nonce_or_random_no_prover in H|].
  peel H c Ec; [destruct H|].
  peel H n Enn; [destruct H|].
  peel H h3 E3; [now apply hashWithPoseidon_no_prover in H|].
  peel H ns Ens; [now rewrite method_toString_trace in H|].
  apply method_toString_returns in Ens. subst ns.
  peel H pd Epd; [|destruct H].
  rewrite generateProof_trace in H. destruct H as [H|[]].
  injection H as <-.
  exists props, elems, nv, c, n, h1, h2, h3.
  split; [reflexivity|]. split; [|reflexivity].
  constructor; assumption.
Qed.


Lemma String_of_converts v :
  String_throws v = false -> String_of v = ([], inr (ToString v)).
Proof. intros H. now rewrite String_of_run, H. Qed.

Lemma join_converts sep elems :
  existsb String_throws elems = false ->
  join sep elems = ([], inr (Array_join sep elems)).
Proof. intros H. now rewrite join_run, H. Qed.

(** The whole run once every step before the prover went through. *)
Lemma auth_run world props elems nonceValue c n h1 h2 h3 :
  derivation world props elems nonceValue c n h1 h2 h3 ->
  api_auth_generate_proof world (VObj props)
  = ([CallStringToField (ToString (lookup (lit "username") props));
      CallStringToField (Array_join [] elems);
      CallBuildPoseidon; CallPoseidon [username_int props];
      CallBuildPoseidon; CallPoseidon [username_int props; pattern_int elems]]
     ++ fst (nonce_or_random world (lookup (lit "nonce") props))
     ++ [CallBuildPoseidon; CallPoseidon [c; n];
         CallFullProve (auth_inputs props elems nonceValue h1 h2 h3)],
     match snd (generateProof world
                  (auth_inputs props elems nonceValue h1 h2 h3)) with
     | inr proofData =>
         {| status := 200;
            body := AuthBody h1 h2 h3 nonceValue (proof proofData)
                      (publicSignals proofData) |}
     | inl e => {| status := 500; body := FailureBody (error_message e) |}
     end).
Proof.
  intros [Huser Hpattern Hus Hjs Hh1 Hh2 Hnonce Hc Hn Hh3].
  unfold api_auth_generate_proof.
  rewrite !get_prop_object, !bind_ret_l.
  rewrite Huser, Hpattern. cbn [truthy Array_isArray negb orb].
  rewrite (bind_returns_run _ _ _ _ (String_of_converts _ Hus)).
  rewrite (bind_returns_run _ _ _ _ (call_stringToFieldElement_run _)).
  rewrite (bind_returns_run _ _ _ _ (join_converts _ _ Hjs)).
  rewrite (bind_returns_run _ _ _ _ (call_stringToFieldElement_run _)).
  rewrite !BigInt_stringToFieldElement, bind_lift_inr.
  rewrite (bind_returns_run _ _ _ _ (hashWithPoseidon_returns_run _ _ _ Hh1)).
  rewrite !bind_lift_inr.
  rewrite (bind_returns_run _ _ _ _ (hashWithPoseidon_returns_run _ _ _ Hh2)).
  assert (Hnr : nonce_or_random world (lookup (lit "nonce") props)
                = (fst (nonce_or_random world (lookup (lit "nonce") props)),
                   inr nonceValue)).
  { unfold returns in Hnonce. rewrite <- Hnonce.
    now destruct (nonce_or_random _ _). }
  rewrite (bind_returns_run _ _ _ _ Hnr).
  rewrite Hc, Hn, !bind_lift_inr.
  rewrite (bind_returns_run _ _ _ _ (hashWithPoseidon_returns_run _ _ _ Hh3)).
  rewrite (bind_returns_run _ _ _ _ (method_toString_accepted _ _ Hn)).
  rewrite !handle_prepend.
  change (handle _ _) with
    (handle (proofData <- generateProof world
                            (auth_inputs props elems nonceValue h1 h2 h3) ;;
             ret ((fun pd => {| status := 200;
                                body := AuthBody h1 h2 h3 nonceValue (proof pd)
                                          (publicSignals pd) |}) proofData))
       (fun error =>
          {| status := 500; body := FailureBody (error_message error) |})).
  rewrite handle_generateProof.
  unfold prepend. cbn [fst snd app].
  f_equal; rewrite <- ?app_assoc; reflexivity.
Qed.

Lemma auth_hash_calls world props elems nonceValue c n h1 h2 h3 :
  derivation world props elems nonceValue c n h1 h2 h3 ->
  filter is_poseidon_call (fst (api_auth_generate_proof world (VObj props)))
  = [CallPoseidon [username_int props];
     CallPoseidon [username_int props; pattern_int elems];
     CallPoseidon [c; n]].
Proof.
  intros D. rewrite (auth_run _ _ _ _ _ _ _ _ _ D). cbn [fst].
  rewrite !filter_app, nonce_or_random_no_hash. reflexivity.
Qed.







(** ** The presence check of [/api/generate-proof] *)

(** C4, as the code has it: the check is one of presence. When any of the six
    fields is absent or falsy the answer is 400 with the missing-fields error
    and the trace is empty (the prover is not called); when all six are truthy
    the prover is called once with the six values as they came, parseable or
    not. *)
Theorem api_generate_proof_presence_check (world : World)
    (props : list (jsstring * value)) :
  (forallb truthy (six_fields props) = false ->
   api_generate_proof world (VObj props)
   = ([], {| status := 400;
             body := ErrorBody
                       (Literal "Missing required fields: username, password, username_hash, credential_hash, nonce, result_hash") |}))
  /\ (forallb truthy (six_fields props) = true ->
      fst (api_generate_proof world (VObj props))
      = [CallFullProve (witness_of props)]).
Proof.
  split.
  - apply api_generate_proof_missing.
  - intros H. apply (api_generate_proof_present world props H).
Qed.

Lemma api_generate_proof_presence_check_witness :
  api_generate_proof sample_world sample_incomplete_witness
  = ([], {| status := 400;
            body := ErrorBody
                      (Literal "Missing required fields: username, password, username_hash, credential_hash, nonce, result_hash") |})
  /\ fst (api_generate_proof sample_world sample_unparseable_witness)
     = [CallFullProve
          {| username := VStr (lit "abc");
             password := VStr (lit "241393873200");
             username_hash := VStr (lit "1");
             credential_hash := VStr (lit "2");
             nonce := VStr (lit "12345");
             result_hash := VStr (lit "3") |}].
Proof.
  split.
  - apply (proj1 (api_generate_proof_presence_check sample_world
                    [(lit "username", VStr (lit "8243121641273648500"));
                     (lit "password", VStr (lit "241393873200"));
                     (lit "username_hash", VStr (lit "1"));
                     (lit "credential_hash", VStr (lit "2"));
                     (lit "result_hash", VStr (lit "3"))])).
    vm_compute. reflexivity.
  - apply (proj2 (api_generate_proof_presence_check sample_world
                    [(lit "username", VStr (lit "abc"));
                     (lit "password", VStr (lit "241393873200"));
                     (lit "username_hash", VStr (lit "1"));
                     (lit "credential_hash", VStr (lit "2"));
                     (lit "nonce", VStr (lit "12345"));
                     (lit "result_hash", VStr (lit "3"))])).
    vm_compute. reflexivity.
Defined.

(** The request of [sample_unparseable_witness] fails the completeness check
    of section 4.4 ([username] is not a number), yet in every world the prover
    is called with it and the answer is not 400. *)
Lemma api_generate_proof_unparseable_reaches_prover :
  witness_complete sample_unparseable_witness = false
  /\ (forall world,
        fst (api_generate_proof world sample_unparseable_witness)
        = [CallFullProve
             {| username := VStr (lit "abc");
                password := VStr (lit "241393873200");
                username_hash := VStr (lit "1");
                credential_hash := VStr (lit "2");
                nonce := VStr (lit "12345");
                result_hash := VStr (lit "3") |}]
        /\ status (snd (api_generate_proof world sample_unparseable_witness))
           <> 400)
  /\ status (snd (api_generate_proof sample_world sample_unparseable_witness))
     = 200.
Proof.
  split; [vm_compute; reflexivity|]. split; [|vm_compute; reflexivity].
  intros world.
  apply (api_generate_proof_present world
           [(lit "username", VStr (lit "abc"));
            (lit "password", VStr (lit "241393873200"));
            (lit "username_hash", VStr (lit "1"));
            (lit "credential_hash", VStr (lit "2"));
            (lit "nonce", VStr (lit "12345"));
            (lit "result_hash", VStr (lit "3"))]).
  vm_compute. reflexivity.
Qed.

(** ** Order of the pattern *)

(** Two patterns with the same elements in a different order and the same
    [passwordField]: without a separator [[1, 11]] and [[11, 1]] both join to
    ["111"]; and past the 31st byte the order is not encoded at all. *)
Lemma passwordField_order_collision :
  (Permutation [1; 11] [11; 1]
   /\ [1; 11] <> [11; 1]
   /\ passwordField_of [1; 11] = passwordField_of [11; 1])
  /\ (let zeros := repeat 0 31 in
      digit_pattern (zeros ++ [1; 2])
      /\ Permutation (zeros ++ [1; 2]) (zeros ++ [2; 1])
      /\ zeros ++ [1; 2] <> zeros ++ [2; 1]
      /\ passwordField_of (zeros ++ [1; 2]) = passwordField_of (zeros ++ [2; 1])).
Proof.
  split.
  - split; [apply perm_swap|]. split; [discriminate|].
    vm_compute. reflexivity.
  - intros zeros. split.
    { unfold digit_pattern. apply Forall_forall. intros d Hd.
      apply in_app_or in Hd. destruct Hd as [Hd|Hd].
      - apply repeat_spec in Hd. lia.
      - simpl in Hd. lia. }
    split; [apply Permutation_app_head, perm_swap|].
    split; [intros E; apply app_inv_head in E; discriminate|].
    vm_compute. reflexivity.
Qed.

(** C5, as the code has it: for a pattern of single digits (0 to 9) of at
    most 31 elements, any reordering that changes the sequence changes
    [passwordField], and with it the integer that enters the credential hash;
    [[0, 1, 2]] and [[2, 1, 0]] are such a pair. *)
Theorem passwordField_order_sensitive (p1 p2 : list Z) :
  digit_pattern p1 -> (List.length p1 <= 31)%nat ->
  Permutation p1 p2 -> p1 <> p2 ->
  passwordField_of p1 <> passwordField_of p2
  /\ StringToBigInt (passwordField_of p1) <> StringToBigInt (passwordField_of p2).
Proof.
  intros Hd Hlen Hperm Hneq.
  assert (Hd2 : digit_pattern p2).
  { unfold digit_pattern in *. eapply Permutation_Forall; eassumption. }
  assert (Hlen2 : (List.length p2 <= 31)%nat).
  { rewrite <- (Permutation_length Hperm). exact Hlen. }
  assert (Hdiff : passwordField_of p1 <> passwordField_of p2).
  { intros E. apply Hneq. now apply passwordField_of_inj. }
  split; [exact Hdiff|].
  intros E. apply Hdiff. unfold passwordField_of, stringToFieldElement in *.
  rewrite !StringToBigInt_toString in E. now inversion E.
Qed.

Lemma passwordField_order_sensitive_witness :
  passwordField_of [0; 1; 2] <> passwordField_of [2; 1; 0]
  /\ StringToBigInt (passwordField_of [0; 1; 2])
     <> StringToBigInt (passwordField_of [2; 1; 0]).
Proof.
  apply (passwordField_order_sensitive [0; 1; 2] [2; 1; 0]).
  - unfold digit_pattern. repeat constructor; lia.
  - simpl. lia.
  - apply (Permutation_rev [0; 1; 2]).
  - discriminate.
Defined.

(** * Further properties of the handlers *)

(** ** [POST /api/hash] beyond validation *)

Lemma mapM_BigInt elems :
  mapM (fun i => lift (BigInt i)) elems = ([], BigInt_each elems).
Proof.
  induction elems as [|x rest IH]; [reflexivity|].
  cbn [mapM BigInt_each]. rewrite bind_lift.
  destruct (BigInt x) as [e|y]; [reflexivity|].
  rewrite IH. destruct (BigInt_each rest) as [e|ys]; reflexivity.
Qed.

Lemma BigInt_each_Forall2 elems : forall ints,
  Forall2 (fun v z => BigInt v = inr z) elems ints ->
  BigInt_each elems = inr ints.
Proof.
  induction elems as [|x rest IH]; intros ints H; inversion H; subst.
  - reflexivity.
  - cbn [BigInt_each].
    match goal with Hx : BigInt x = _ |- _ => rewrite Hx end.
    now rewrite (IH _ ltac:(eassumption)).
Qed.

Lemma BigInt_each_fails elems v e0 :
  In v elems -> BigInt v = inl e0 -> exists e, BigInt_each elems = inl e.
Proof.
  induction elems as [|x rest IH]; intros Hin Hv; [destruct Hin|].
  cbn [BigInt_each]. destruct Hin as [->|Hin].
  - rewrite Hv. now exists e0.
  - destruct (BigInt x) as [e|y]; [now exists e|].
    destruct (IH Hin Hv) as [e He]. rewrite He. now exists e.
Qed.

(** The run of [/api/hash] on an array. *)
Lemma api_hash_run world req_body elems :
  get_prop req_body (lit "inputs") = ret (VArr elems) ->
  api_hash world req_body
  = match BigInt_each elems with
    | inl e => ([], {| status := 500; body := ErrorBody (error_message e) |})
    | inr ints =>
        (fst (hashWithPoseidon world ints),
         match snd (hashWithPoseidon world ints) with
         | inr h => {| status := 200; body := HashBody h |}
         | inl e => {| status := 500; body := ErrorBody (error_message e) |}
         end)
    end.
Proof.
  intros Hget. unfold api_hash. rewrite Hget, bind_ret_l.
  cbn [truthy Array_isArray negb orb]. rewrite mapM_BigInt.
  destruct (BigInt_each elems) as [e|ints]; [reflexivity|].
  change (@pair (list event) (result (list Z)) [] (inr ints)) with (ret ints).
  rewrite bind_ret_l.
  destruct (hashWithPoseidon world ints) as [t [e|h]];
    cbn; rewrite ?app_nil_r; reflexivity.
Qed.

(** X1: when every number in [inputs] is a safe integer, every element
    converts with [BigInt] and the hash returns, [/api/hash] answers 200 with
    that hash after one call of Poseidon on the converted list, in the order
    given. The empty array passes the validation too: Poseidon is then called
    on the empty list. *)
Theorem api_hash_hashes_converted_inputs (world : World)
    (req_body : value) (elems : list value) (ints : list Z) (h : jsstring) :
  get_prop req_body (lit "inputs") = ret (VArr elems) ->
  forallb exact_numbers elems = true ->
  Forall2 (fun v z => BigInt v = inr z) elems ints ->
  returns (hashWithPoseidon world ints) h ->
  api_hash world req_body
  = ([CallBuildPoseidon; CallPoseidon ints],
     {| status := 200; body := HashBody h |}).
Proof.
  intros Hget _ Hconv Hh. rewrite (api_hash_run _ _ _ Hget).
  rewrite (BigInt_each_Forall2 _ _ Hconv).
  now rewrite (hashWithPoseidon_returns_run _ _ _ Hh).
Qed.

Lemma api_hash_hashes_converted_inputs_witness :
  api_hash sample_world
    (hash_request [VStr (lit "123456"); VNum 789012; VStr (lit " 0x10 ")])
  = ([CallBuildPoseidon; CallPoseidon [123456; 789012; 16]],
     {| status := 200; body := HashBody (lit "143607051") |})
  /\ api_hash sample_world (hash_request [])
     = ([CallBuildPoseidon; CallPoseidon []],
        {| status := 200; body := HashBody (lit "17") |}).
Proof.
  split.
  - apply (api_hash_hashes_converted_inputs sample_world _
             [VStr (lit "123456"); VNum 789012; VStr (lit " 0x10 ")]
             [123456; 789012; 16]).
    + reflexivity.
    + reflexivity.
    + repeat constructor.
    + vm_compute. reflexivity.
  - apply (api_hash_hashes_converted_inputs sample_world _ [] []).
    + reflexivity.
    + reflexivity.
    + constructor.
    + vm_compute. reflexivity.
Defined.

(** X2: when some element of [inputs] is refused by [BigInt] (a word, [null],
    an object), [/api/hash] answers 500, not 400, with the conversion error,
    and the trace is empty: every element is converted before Poseidon is
    built. *)
Theorem api_hash_conversion_error (world : World) (req_body : value)
    (elems : list value) (v : value) (e0 : exn) :
  get_prop req_body (lit "inputs") = ret (VArr elems) ->
  In v elems -> BigInt v = inl e0 ->
  exists e,
    api_hash world req_body
    = ([], {| status := 500; body := ErrorBody (error_message e) |}).
Proof.
  intros Hget Hin Hv. rewrite (api_hash_run _ _ _ Hget).
  destruct (BigInt_each_fails _ _ _ Hin Hv) as [e He].
  exists e. now rewrite He.
Qed.

Lemma api_hash_conversion_error_witness :
  exists e,
    api_hash sample_world (hash_request [VStr (lit "12"); VStr (lit "abc")])
    = ([], {| status := 500; body := ErrorBody (error_message e) |}).
Proof.
  apply (api_hash_conversion_error sample_world _
           [VStr (lit "12"); VStr (lit "abc")] (VStr (lit "abc"))
           (Thrown (Engine SyntaxError))).
  - reflexivity.
  - right. left. reflexivity.
  - vm_compute. reflexivity.
Defined.

Lemma BigInt_each_numbers ns : BigInt_each (map VNum ns) = inr ns.
Proof.
  induction ns as [|n rest IH]; [reflexivity|].
  cbn [map BigInt_each BigInt]. now rewrite IH.
Qed.

Lemma BigInt_each_decimal_strings ns :
  BigInt_each (map (fun n => VStr (Number_toString n)) ns) = inr ns.
Proof.
  induction ns as [|n rest IH]; [reflexivity|].
  cbn [map BigInt_each]. unfold Number_toString at 1.
  rewrite BigInt_of_toString. now rewrite IH.
Qed.

Lemma BigInt_each_field_elements strs :
  BigInt_each (map (fun s => VStr (stringToFieldElement s)) strs)
  = inr (map (fun s => little_endian_sum (TextEncoder_encode s)) strs).
Proof.
  induction strs as [|s rest IH]; [reflexivity|].
  cbn [map BigInt_each]. rewrite BigInt_stringToFieldElement, IH.
  now rewrite field_value_sum.
Qed.

Lemma hash_request_inputs elems :
  get_prop (hash_request elems) (lit "inputs") = ret (VArr elems).
Proof. reflexivity. Qed.

(** X3: [/api/hash] cannot tell a safe integer from its decimal string: an
    array of safe integers and the array of their decimal renderings give the
    same call of Poseidon, on those integers, and the same answer. *)
Theorem api_hash_number_or_decimal_string (world : World) (ns : list Z) :
  forallb safe_integer ns = true ->
  api_hash world (hash_request (map VNum ns))
  = api_hash world (hash_request (map (fun n => VStr (Number_toString n)) ns))
  /\ api_hash world (hash_request (map VNum ns))
     = (fst (hashWithPoseidon world ns),
        match snd (hashWithPoseidon world ns) with
        | inr h => {| status := 200; body := HashBody h |}
        | inl e => {| status := 500; body := ErrorBody (error_message e) |}
        end).
Proof.
  intros _.
  rewrite !(api_hash_run _ _ _ (hash_request_inputs _)).
  now rewrite BigInt_each_numbers, BigInt_each_decimal_strings.
Qed.

Lemma api_hash_number_or_decimal_string_witness :
  api_hash sample_world (hash_request [VNum 7; VNum (-3)])
  = api_hash sample_world
      (hash_request [VStr (lit "7"); VStr (lit "-3")])
  /\ fst (api_hash sample_world (hash_request [VNum 7; VNum (-3)]))
     = [CallBuildPoseidon; CallPoseidon [7; -3]].
Proof.
  destruct (api_hash_number_or_decimal_string sample_world [7; -3] eq_refl)
    as [Hsame Hrun].
  split.
  - change [VNum 7; VNum (-3)] with (map VNum [7; -3]).
    rewrite Hsame. vm_compute. reflexivity.
  - change [VNum 7; VNum (-3)] with (map VNum [7; -3]).
    rewrite Hrun. vm_compute. reflexivity.
Defined.

(** X4: what [stringToFieldElement] returns is always accepted by [/api/hash]:
    for any strings, hashing their field elements never fails in the
    conversion, and Poseidon is called on the little-endian sums of their
    UTF-8 bytes. *)
Theorem api_hash_accepts_field_elements (world : World)
    (strs : list jsstring) :
  let ints := map (fun s => little_endian_sum (TextEncoder_encode s)) strs in
  api_hash world
    (hash_request (map (fun s => VStr (stringToFieldElement s)) strs))
  = (fst (hashWithPoseidon world ints),
     match snd (hashWithPoseidon world ints) with
     | inr h => {| status := 200; body := HashBody h |}
     | inl e => {| status := 500; body := ErrorBody (error_message e) |}
     end)
  /\ (forall p, buildPoseidon world = inr p ->
      fst (hashWithPoseidon world ints) = [CallBuildPoseidon; CallPoseidon ints]).
Proof.
  intros ints. split.
  - rewrite (api_hash_run _ _ _ (hash_request_inputs _)).
    now rewrite BigInt_each_field_elements.
  - intros p Hp. unfold hashWithPoseidon.
    rewrite bind_emit, bind_lift, Hp, bind_emit, bind_lift.
    destruct (p ints); reflexivity.
Qed.

Lemma api_hash_accepts_field_elements_witness :
  fst (api_hash sample_world
         (hash_request
            [VStr (stringToFieldElement (lit "testuser"));
             VStr (stringToFieldElement (lit "01248"))]))
  = [CallBuildPoseidon; CallPoseidon [8243121641273648500; 241393873200]].
Proof.
  destruct (api_hash_accepts_field_elements sample_world
              [lit "testuser"; lit "01248"]) as [Hrun Htrace].
  cbv zeta in Hrun, Htrace.
  change (map (fun s => VStr (stringToFieldElement s))
            [lit "testuser"; lit "01248"])
    with [VStr (stringToFieldElement (lit "testuser"));
          VStr (stringToFieldElement (lit "01248"))] in Hrun.
  rewrite Hrun. cbn [fst].
  rewrite (Htrace _ eq_refl). vm_compute. reflexivity.
Defined.

(** ** [hashWithPoseidon] *)

Lemma hashWithPoseidon_run world inputs :
  hashWithPoseidon world inputs
  = match buildPoseidon world with
    | inl e => ([CallBuildPoseidon], inl e)
    | inr poseidon =>
        ([CallBuildPoseidon; CallPoseidon inputs],
         match poseidon inputs with
         | inl e => inl e
         | inr (HR_bigint z) => inr (BigInt_toString z)
         | inr (HR_object rendered) => inr rendered
         | inr (HR_other v) => inr (ToString v)
         end)
    end.
Proof.
  unfold hashWithPoseidon. rewrite bind_emit, bind_lift.
  destruct (buildPoseidon world) as [e|p]; [reflexivity|].
  rewrite bind_emit, bind_lift.
  destruct (p inputs) as [e|[z|r|v]]; reflexivity.
Qed.

(** X5: [hashWithPoseidon] hands failures on as they are, without a prefix:
    when Poseidon cannot be built the hash function itself is never called,
    and when it throws the same error leaves. When it returns a bigint, the
    decimal string that [hashWithPoseidon] returns reads back with [BigInt]
    as that same integer. *)
Theorem hashWithPoseidon_plain_errors_and_round_trip (world : World)
    (inputs : list Z) :
  (forall e, buildPoseidon world = inl e ->
     hashWithPoseidon world inputs = ([CallBuildPoseidon], inl e))
  /\ (forall p e, buildPoseidon world = inr p -> p inputs = inl e ->
        hashWithPoseidon world inputs
        = ([CallBuildPoseidon; CallPoseidon inputs], inl e))
  /\ (forall p z, buildPoseidon world = inr p ->
        p inputs = inr (HR_bigint z) ->
        exists h, returns (hashWithPoseidon world inputs) h
                  /\ BigInt (VStr h) = inr z).
Proof.
  rewrite hashWithPoseidon_run. repeat split.
  - now intros e ->.
  - now intros p e -> ->.
  - intros p z -> ->. exists (BigInt_toString z).
    split; [reflexivity|]. apply BigInt_of_toString.
Qed.

Lemma hashWithPoseidon_plain_errors_and_round_trip_witness :
  hashWithPoseidon broken_hash_world [1; 2]
  = ([CallBuildPoseidon],
     inl (Thrown (Library (lit "poseidon constants missing"))))
  /\ exists h, returns (hashWithPoseidon sample_world [1; 2]) h
               /\ BigInt (VStr h) = inr 16370.
Proof.
  split.
  - apply (proj1 (hashWithPoseidon_plain_errors_and_round_trip
                    broken_hash_world [1; 2])).
    reflexivity.
  - destruct (buildPoseidon sample_world) as [e|p] eqn:Hp;
      [discriminate|].
    apply (proj2 (proj2 (hashWithPoseidon_plain_errors_and_round_trip
                           sample_world [1; 2])) p 16370 Hp).
    injection Hp as <-. vm_compute. reflexivity.
Defined.



(** ** Failures of the prover *)

Lemma generateProof_prover_throws world inputs e :
  groth16_fullProve world inputs = inl e ->
  generateProof world inputs
  = ([CallFullProve inputs],
     inl (Thrown (Template "Failed to generate ZK proof: "
                    (error_message e)))).
Proof.
  intros He. unfold generateProof, try_catch.
  rewrite bind_emit, bind_lift, He. reflexivity.
Qed.

Lemma generateProof_missing_row world inputs raw sigs :
  groth16_fullProve world inputs = inr (raw, sigs) ->
  index (pi_b raw) 0 = None \/ index (pi_b raw) 1 = None ->
  generateProof world inputs
  = ([CallFullProve inputs],
     inl (Thrown (Template "Failed to generate ZK proof: "
                    (Engine TypeError)))).
Proof.
  intros Hraw Hrows. unfold generateProof, try_catch.
  rewrite bind_emit, bind_lift, Hraw. unfold index2.
  destruct (index (pi_b raw) 0) as [r0|] eqn:H0; [|reflexivity].
  rewrite !bind_ret_l.
  destruct (index (pi_b raw) 1) as [r1|] eqn:H1; [|reflexivity].
  destruct Hrows; discriminate.
Qed.

(** X7: [generateProof] never lets a raw error out and never returns part of
    a proof: when the prover throws, or when the proof it resolves to lacks
    row 0 or row 1 of [pi_b], the error thrown has the message
    [Failed to generate ZK proof: ] followed by the cause, and the prover was
    called once. *)
Theorem generateProof_wraps_failures (world : World) (inputs : CircuitInputs) :
  (forall e, groth16_fullProve world inputs = inl e ->
     generateProof world inputs
     = ([CallFullProve inputs],
        inl (Thrown (Template "Failed to generate ZK proof: "
                       (error_message e)))))
  /\ (forall raw sigs, groth16_fullProve world inputs = inr (raw, sigs) ->
        index (pi_b raw) 0 = None \/ index (pi_b raw) 1 = None ->
        generateProof world inputs
        = ([CallFullProve inputs],
           inl (Thrown (Template "Failed to generate ZK proof: "
                          (Engine TypeError))))).
Proof.
  split.
  - apply generateProof_prover_throws.
  - apply generateProof_missing_row.
Qed.

Lemma generateProof_wraps_failures_witness :
  let inputs := witness_of [] in
  generateProof failing_prover_world inputs
  = ([CallFullProve inputs],
     inl (Thrown (Template "Failed to generate ZK proof: "
                    (Library (lit "circuit.wasm not found")))))
  /\ generateProof short_proof_world inputs
     = ([CallFullProve inputs],
        inl (Thrown (Template "Failed to generate ZK proof: "
                       (Engine TypeError)))).
Proof.
  intros inputs. split.
  - exact (proj1 (generateProof_wraps_failures failing_prover_world inputs)
             _ eq_refl).
  - exact (proj2 (generateProof_wraps_failures short_proof_world inputs)
             _ _ eq_refl (or_intror eq_refl)).
Defined.

(** The run of [/api/generate-proof] once the six fields are present. *)
Lemma api_generate_proof_run world props :
  forallb truthy (six_fields props) = true ->
  api_generate_proof world (VObj props)
  = ([CallFullProve (witness_of props)],
     match snd (generateProof world (witness_of props)) with
     | inr proofData =>
         {| status := 200;
            body := ProofBody (proof proofData) (publicSignals proofData) |}
     | inl e => {| status := 500; body := FailureBody (error_message e) |}
     end).
Proof.
  intros H. unfold api_generate_proof.
  rewrite !get_prop_object, !bind_ret_l.
  unfold six_fields in H. cbn [map forallb] in H.
  destruct (truthy (lookup (lit "username") props)),
           (truthy (lookup (lit "password") props)),
           (truthy (lookup (lit "username_hash") props)),
           (truthy (lookup (lit "credential_hash") props)),
           (truthy (lookup (lit "nonce") props)),
           (truthy (lookup (lit "result_hash") props));
    try discriminate.
  cbn [negb orb]. fold (witness_of props).
  exact (handle_generateProof world (witness_of props)
           (fun pd => {| status := 200;
                         body := ProofBody (proof pd) (publicSignals pd) |})
           _).
Qed.

(** X8: when the six fields are present and the prover throws,
    [/api/generate-proof] answers 500 with [success: false] and the message
    [Failed to generate ZK proof: ] followed by the prover's own message; the
    prover was called once and is not called again. *)
Theorem api_generate_proof_prover_failure (world : World)
    (props : list (jsstring * value)) (e : exn) :
  forallb truthy (six_fields props) = true ->
  groth16_fullProve world (witness_of props) = inl e ->
  api_generate_proof world (VObj props)
  = ([CallFullProve (witness_of props)],
     {| status := 500;
        body := FailureBody
                  (Template "Failed to generate ZK proof: "
                     (error_message e)) |}).
Proof.
  intros Hall He. rewrite (api_generate_proof_run _ _ Hall).
  now rewrite (generateProof_prover_throws _ _ _ He).
Qed.

Lemma api_generate_proof_prover_failure_witness :
  api_generate_proof failing_prover_world sample_unparseable_witness
  = ([CallFullProve
        (witness_of
           [(lit "username", VStr (lit "abc"));
            (lit "password", VStr (lit "241393873200"));
            (lit "username_hash", VStr (lit "1"));
            (lit "credential_hash", VStr (lit "2"));
            (lit "nonce", VStr (lit "12345"));
            (lit "result_hash", VStr (lit "3"))])],
     {| status := 500;
        body := FailureBody
                  (Template "Failed to generate ZK proof: "
                     (Library (lit "circuit.wasm not found"))) |}).
Proof.
  apply (api_generate_proof_prover_failure failing_prover_world
           [(lit "username", VStr (lit "abc"));
            (lit "password", VStr (lit "241393873200"));
            (lit "username_hash", VStr (lit "1"));
            (lit "credential_hash", VStr (lit "2"));
            (lit "nonce", VStr (lit "12345"));
            (lit "result_hash", VStr (lit "3"))]
           (Thrown (Library (lit "circuit.wasm not found")))).
  - vm_compute. reflexivity.
  - reflexivity.
Defined.

(** X9: when the six fields are present and the prover resolves to a proof
    with rows 0 and 1 of [pi_b], [/api/generate-proof] answers 200 with the
    normalised proof (each row of [b] swapped, [a] and [c] cut to two
    coordinates) and the public signals exactly as the prover gave them. *)
Theorem api_generate_proof_success (world : World)
    (props : list (jsstring * value)) (raw : RawProof)
    (sigs : list jsstring) (r0 r1 : list jsstring) :
  forallb truthy (six_fields props) = true ->
  groth16_fullProve world (witness_of props) = inr (raw, sigs) ->
  index (pi_b raw) 0 = Some r0 -> index (pi_b raw) 1 = Some r1 ->
  api_generate_proof world (VObj props)
  = ([CallFullProve (witness_of props)],
     {| status := 200;
        body := ProofBody
                  (ZKProofData.make
                     [index (pi_a raw) 0; index (pi_a raw) 1]
                     [[index r0 1; index r0 0]; [index r1 1; index r1 0]]
                     [index (pi_c raw) 0; index (pi_c raw) 1])
                  sigs |}).
Proof.
  intros Hall Hraw H0 H1. rewrite (api_generate_proof_run _ _ Hall).
  now rewrite (generateProof_rows _ _ _ _ _ _ Hraw H0 H1).
Qed.

Lemma api_generate_proof_success_witness :
  api_generate_proof sample_world sample_unparseable_witness
  = ([CallFullProve
        (witness_of
           [(lit "username", VStr (lit "abc"));
            (lit "password", VStr (lit "241393873200"));
            (lit "username_hash", VStr (lit "1"));
            (lit "credential_hash", VStr (lit "2"));
            (lit "nonce", VStr (lit "12345"));
            (lit "result_hash", VStr (lit "3"))])],
     {| status := 200;
        body := ProofBody
                  (ZKProofData.make
                     [Some (lit "11"); Some (lit "12")]
                     [[Some (lit "22"); Some (lit "21")];
                      [Some (lit "24"); Some (lit "23")]]
                     [Some (lit "31"); Some (lit "32")])
                  [lit "1"; lit "2"; lit "3"] |}).
Proof.
  apply (api_generate_proof_success sample_world
           [(lit "username", VStr (lit "abc"));
            (lit "password", VStr (lit "241393873200"));
            (lit "username_hash", VStr (lit "1"));
            (lit "credential_hash", VStr (lit "2"));
            (lit "nonce", VStr (lit "12345"));
            (lit "result_hash", VStr (lit "3"))]
           {| pi_a := [lit "11"; lit "12"; lit "1"];
              pi_b := [[lit "21"; lit "22"]; [lit "23"; lit "24"];
                       [lit "1"; lit "0"]];
              pi_c := [lit "31"; lit "32"; lit "1"] |}
           [lit "1"; lit "2"; lit "3"]
           [lit "21"; lit "22"] [lit "23"; lit "24"]).
  - vm_compute. reflexivity.
  - vm_compute. reflexivity.
  - reflexivity.
  - reflexivity.
Defined.

(** ** [POST /api/auth/generate-proof]: validation and failures *)

Lemma bind_fails {A B} (m : M A) (k : A -> M B) t e :
  m = (t, inl e) -> bind m k = (t, inl e).
Proof. now intros ->. Qed.

Lemma handle_fails t e on_error :
  handle (t, inl e) on_error = (t, on_error e).
Proof. reflexivity. Qed.

(** A valid request is answered 200 or 500. *)
Lemma auth_valid_status world props elems :
  truthy (lookup (lit "username") props) = true ->
  lookup (lit "pattern") props = VArr elems ->
  status (snd (api_auth_generate_proof world (VObj props))) = 200
  \/ status (snd (api_auth_generate_proof world (VObj props))) = 500.
Proof.
  intros Huser Hpattern. unfold api_auth_generate_proof.
  rewrite handle_response, !get_prop_object, !bind_ret_l.
  rewrite Huser, Hpattern. cbn [truthy Array_isArray negb orb].
  match goal with
  | |- status (match snd ?m with _ => _ end) = _ \/ _ =>
      destruct (snd m) as [e|r] eqn:H; [now right|left]
  end.
  match type of H with snd ?m = inr r => change (returns m r) in H end.
  peel_returns H us Eus. peel_returns H uf Euf.
  peel_returns H js Ejs.
  peel_returns H pf Epf. peel_returns H u1 Eu1. peel_returns H h1 E1.
  peel_returns H u2 Eu2. peel_returns H p2 Ep2. peel_returns H h2 E2.
  peel_returns H nv En. peel_returns H c Ec. peel_returns H n Enn.
  peel_returns H h3 E3. peel_returns H ns Ens. peel_returns H pd Epd.
  unfold returns in H. cbn in H. now injection H as <-.
Qed.

(** X10: [/api/auth/generate-proof] answers 400 exactly when [username] is
    falsy or [pattern] is not an array (the separate test of [!pattern] adds
    nothing), and then before any work: the trace is empty. Any other request
    passes validation and is answered 200 or 500; when its username is a
    string, the handler starts by encoding that string. *)
Theorem api_auth_validation (world : World) (props : list (jsstring * value)) :
  let user := lookup (lit "username") props in
  let pattern := lookup (lit "pattern") props in
  (truthy user = false \/ Array_isArray pattern = false ->
   api_auth_generate_proof world (VObj props)
   = ([], {| status := 400;
             body := ErrorBody
                       (Literal "Missing required fields: username (string), pattern (array)") |}))
  /\ (truthy user = true -> Array_isArray pattern = true ->
      (status (snd (api_auth_generate_proof world (VObj props))) = 200
       \/ status (snd (api_auth_generate_proof world (VObj props))) = 500)
      /\ forall s, user = VStr s ->
           exists t,
             fst (api_auth_generate_proof world (VObj props))
             = CallStringToField s :: t).
Proof.
  cbv zeta. split.
  - intros H. unfold api_auth_generate_proof.
    rewrite !get_prop_object, !bind_ret_l.
    assert (Hc : negb (truthy (lookup (lit "username") props))
                 || negb (truthy (lookup (lit "pattern") props))
                 || negb (Array_isArray (lookup (lit "pattern") props)) = true).
    { destruct H as [H|H]; rewrite H; cbn [negb orb];
        [reflexivity|apply orb_true_r]. }
    now rewrite Hc.
  - intros Huser Harr.
    destruct (lookup (lit "pattern") props) as [| |b|z|s|elems|o] eqn:Hpattern;
      try discriminate.
    split.
    + exact (auth_valid_status world props elems Huser Hpattern).
    + intros s Hs. unfold api_auth_generate_proof.
      rewrite handle_trace, !get_prop_object, !bind_ret_l.
      rewrite Huser, Hpattern, Hs. cbn [truthy Array_isArray negb orb].
      rewrite (bind_returns_run _ _ _ _ (String_of_converts (VStr s) eq_refl)).
      rewrite (bind_returns_run _ _ _ _ (call_stringToFieldElement_run _)).
      eexists. reflexivity.
Qed.

Lemma api_auth_validation_witness :
  api_auth_generate_proof sample_world
    (auth_request (VStr (lit "testuser")) (VStr (lit "0124")) VUndefined)
  = ([], {| status := 400;
            body := ErrorBody
                      (Literal "Missing required fields: username (string), pattern (array)") |})
  /\ status (snd (api_auth_generate_proof broken_hash_world
                    (auth_request (VStr (lit "testuser")) (VArr []) VUndefined)))
     = 500
  /\ exists t,
       fst (api_auth_generate_proof broken_hash_world
              (auth_request (VStr (lit "testuser")) (VArr []) VUndefined))
       = CallStringToField (lit "testuser") :: t.
Proof.
  split.
  - apply (proj1 (api_auth_validation sample_world
                    [(lit "username", VStr (lit "testuser"));
                     (lit "pattern", VStr (lit "0124"));
                     (lit "nonce", VUndefined)])).
    right. reflexivity.
  - destruct (proj2 (api_auth_validation broken_hash_world
                       [(lit "username", VStr (lit "testuser"));
                        (lit "pattern", VArr []);
                        (lit "nonce", VUndefined)]) eq_refl eq_refl)
      as [[Hok|Hfail] Hstart].
    + vm_compute in Hok. discriminate Hok.
    + split; [exact Hfail|]. exact (Hstart _ eq_refl).
Defined.

(** *** The prover is called at most once *)

Lemma prover_calls_app t1 t2 :
  prover_calls (t1 ++ t2) = (prover_calls t1 + prover_calls t2)%nat.
Proof. unfold prover_calls. now rewrite filter_app, length_app. Qed.

Lemma prover_calls_bind {A B} (m : M A) (k : A -> M B) (a b : nat) :
  (prover_calls (fst m) <= a)%nat ->
  (forall x, (prover_calls (fst (k x)) <= b)%nat) ->
  (prover_calls (fst (bind m k)) <= a + b)%nat.
Proof.
  intros Hm Hk. destruct m as [t [e|x]]; cbn [bind fst] in *; [lia|].
  specialize (Hk x). destruct (k x) as [t' r]. cbn [fst] in *.
  rewrite prover_calls_app. lia.
Qed.

Lemma prover_calls_bind0 {A B} (m : M A) (k : A -> M B) (b : nat) :
  prover_calls (fst m) = 0%nat ->
  (forall x, (prover_calls (fst (k x)) <= b)%nat) ->
  (prover_calls (fst (bind m k)) <= b)%nat.
Proof.
  intros Hm Hk. apply (prover_calls_bind m k 0 b); [lia|exact Hk].
Qed.

Lemma get_prop_no_prover obj key : prover_calls (fst (get_prop obj key)) = 0%nat.
Proof. now destruct obj. Qed.

Lemma hashWithPoseidon_prover_calls world inputs :
  prover_calls (fst (hashWithPoseidon world inputs)) = 0%nat.
Proof.
  rewrite hashWithPoseidon_run. now destruct (buildPoseidon world).
Qed.

Lemma nonce_or_random_prover_calls world supplied :
  prover_calls (fst (nonce_or_random world supplied)) = 0%nat.
Proof. rewrite nonce_or_random_run. now destruct (truthy supplied). Qed.

Lemma method_toString_prover_calls v :
  prover_calls (fst (method_toString v)) = 0%nat.
Proof. now rewrite method_toString_trace. Qed.

Lemma generateProof_then_ret world inputs (k : ProofResult -> response) :
  (prover_calls
     (fst (proofData <- generateProof world inputs ;; ret (k proofData)))
   <= 1)%nat.
Proof.
  apply (prover_calls_bind _ _ 1 0).
  - now rewrite generateProof_trace.
  - intros pd. cbn. lia.
Qed.

Lemma String_of_prover_calls v : prover_calls (fst (String_of v)) = 0%nat.
Proof. now rewrite String_of_run. Qed.

Lemma join_prover_calls sep elems :
  prover_calls (fst (join sep elems)) = 0%nat.
Proof. now rewrite join_run. Qed.

Ltac no_prover_call :=
  first
    [ apply get_prop_no_prover
    | apply hashWithPoseidon_prover_calls
    | apply nonce_or_random_prover_calls
    | apply method_toString_prover_calls
    | apply String_of_prover_calls
    | reflexivity
    | match goal with
      | |- context [match ?v with _ => _ end] =>
          destruct v;
          first [reflexivity | now rewrite mapM_BigInt
                 | apply join_prover_calls]
      end ].

Ltac count_prover_calls :=
  repeat (apply prover_calls_bind0; [no_prover_call | intros ?]).

(** X11: no handler retries the prover or calls it where it has no business:
    on any request and in any world, [/api/auth/generate-proof] and
    [/api/generate-proof] call [groth16.fullProve] at most once, and
    [/api/hash] and [/api/string-to-field] never. *)
Theorem prover_called_at_most_once (world : World) (req_body : value) :
  (prover_calls (fst (api_auth_generate_proof world req_body)) <= 1)%nat
  /\ (prover_calls (fst (api_generate_proof world req_body)) <= 1)%nat
  /\ prover_calls (fst (api_hash world req_body)) = 0%nat
  /\ prover_calls (fst (api_string_to_field req_body)) = 0%nat.
Proof.
  repeat split.
  - unfold api_auth_generate_proof. rewrite handle_trace.
    count_prover_calls.
    match goal with |- context [if ?c then _ else _] => destruct c end;
      [cbn; lia|].
    count_prover_calls. apply generateProof_then_ret
      with (k := fun pd => {| status := 200; body := _ |}).
  - unfold api_generate_proof. rewrite handle_trace.
    count_prover_calls.
    match goal with |- context [if ?c then _ else _] => destruct c end;
      [cbn; lia|].
    apply generateProof_then_ret
      with (k := fun pd => {| status := 200; body := _ |}).
  - apply Nat.le_0_r. unfold api_hash. rewrite handle_trace.
    count_prover_calls.
    match goal with |- context [if ?c then _ else _] => destruct c end;
      [cbn; lia|].
    count_prover_calls. cbn. lia.
  - apply Nat.le_0_r. unfold api_string_to_field. rewrite handle_trace.
    count_prover_calls.
    match goal with |- context [if ?c then _ else _] => destruct c end;
      [cbn; lia|].
    count_prover_calls. cbn. lia.
Qed.

(** X12: when Poseidon cannot be built, a valid request to
    [/api/auth/generate-proof] whose username and pattern convert to strings
    and print only safe integers is answered 500 with the hash error as it is
    (no prefix), after the two encodings and the one attempt to build
    Poseidon: the hash function and the prover are never called. *)
Theorem api_auth_hash_unavailable (world : World)
    (props : list (jsstring * value)) (elems : list value) (e : exn) :
  buildPoseidon world = inl e ->
  truthy (lookup (lit "username") props) = true ->
  lookup (lit "pattern") props = VArr elems ->
  String_throws (lookup (lit "username") props) = false ->
  exact_numbers (lookup (lit "username") props) = true ->
  existsb String_throws elems = false ->
  forallb exact_numbers elems = true ->
  api_auth_generate_proof world (VObj props)
  = ([CallStringToField (ToString (lookup (lit "username") props));
      CallStringToField (Array_join [] elems);
      CallBuildPoseidon],
     {| status := 500; body := FailureBody (error_message e) |}).
Proof.
  intros Hbuild Huser Hpattern Hus _ Hjs _. unfold api_auth_generate_proof.
  rewrite !get_prop_object, !bind_ret_l.
  rewrite Huser, Hpattern. cbn [truthy Array_isArray negb orb].
  rewrite (bind_returns_run _ _ _ _ (String_of_converts _ Hus)).
  rewrite (bind_returns_run _ _ _ _ (call_stringToFieldElement_run _)).
  rewrite (bind_returns_run _ _ _ _ (join_converts _ _ Hjs)).
  rewrite (bind_returns_run _ _ _ _ (call_stringToFieldElement_run _)).
  rewrite !BigInt_stringToFieldElement, bind_lift_inr.
  assert (Hh : hashWithPoseidon world [username_int props]
               = ([CallBuildPoseidon], inl e))
    by (now rewrite hashWithPoseidon_run, Hbuild).
  unfold username_int in Hh.
  rewrite (bind_fails _ _ _ _ Hh). reflexivity.
Qed.

Lemma api_auth_hash_unavailable_witness :
  api_auth_generate_proof broken_hash_world sample_auth_request
  = ([CallStringToField (lit "testuser"); CallStringToField (lit "01248");
      CallBuildPoseidon],
     {| status := 500;
        body := FailureBody (Library (lit "poseidon constants missing")) |}).
Proof.
  exact (api_auth_hash_unavailable broken_hash_world
           [(lit "username", VStr (lit "testuser"));
            (lit "pattern", VArr [VNum 0; VNum 1; VNum 2; VNum 4; VNum 8]);
            (lit "nonce", VNum 12345)]
           [VNum 0; VNum 1; VNum 2; VNum 4; VNum 8]
           (Thrown (Library (lit "poseidon constants missing")))
           eq_refl eq_refl eq_refl eq_refl eq_refl eq_refl eq_refl).
Defined.

(** X13: a nonce that is truthy but refused by [BigInt] (a word, an object)
    is not replaced by a generated one: with a Poseidon that returns bigints,
    a request whose username and pattern convert to strings, and whose
    numbers are all safe integers, is answered 500 with the conversion error
    after the first two hashes; the random source, the third hash and the
    prover are not called. *)
Theorem api_auth_nonce_not_an_integer (world : World)
    (p : list Z -> result HashResult) (f : list Z -> Z)
    (props : list (jsstring * value)) (elems : list value) (e : exn) :
  buildPoseidon world = inr p ->
  (forall inputs, p inputs = inr (HR_bigint (f inputs))) ->
  truthy (lookup (lit "username") props) = true ->
  lookup (lit "pattern") props = VArr elems ->
  String_throws (lookup (lit "username") props) = false ->
  exact_numbers (lookup (lit "username") props) = true ->
  existsb String_throws elems = false ->
  forallb exact_numbers elems = true ->
  truthy (lookup (lit "nonce") props) = true ->
  exact_numbers (lookup (lit "nonce") props) = true ->
  BigInt (lookup (lit "nonce") props) = inl e ->
  api_auth_generate_proof world (VObj props)
  = ([CallStringToField (ToString (lookup (lit "username") props));
      CallStringToField (Array_join [] elems);
      CallBuildPoseidon; CallPoseidon [username_int props];
      CallBuildPoseidon; CallPoseidon [username_int props; pattern_int elems]],
     {| status := 500; body := FailureBody (error_message e) |}).
Proof.
  intros Hbuild Hf Huser Hpattern Hus _ Hjs _ Htruthy _ Hbad.
  assert (Hh : forall inputs,
             hashWithPoseidon world inputs
             = ([CallBuildPoseidon; CallPoseidon inputs],
                inr (BigInt_toString (f inputs))))
    by (intros inputs; now rewrite hashWithPoseidon_run, Hbuild, Hf).
  unfold api_auth_generate_proof.
  rewrite !get_prop_object, !bind_ret_l.
  rewrite Huser, Hpattern. cbn [truthy Array_isArray negb orb].
  rewrite (bind_returns_run _ _ _ _ (String_of_converts _ Hus)).
  rewrite (bind_returns_run _ _ _ _ (call_stringToFieldElement_run _)).
  rewrite (bind_returns_run _ _ _ _ (join_converts _ _ Hjs)).
  rewrite (bind_returns_run _ _ _ _ (call_stringToFieldElement_run _)).
  rewrite !BigInt_stringToFieldElement, bind_lift_inr.
  rewrite (bind_returns_run _ _ _ _ (Hh _)), !bind_lift_inr.
  rewrite (bind_returns_run _ _ _ _ (Hh _)).
  assert (Hnr : nonce_or_random world (lookup (lit "nonce") props)
                = ([], inr (lookup (lit "nonce") props)))
    by (now rewrite nonce_or_random_run, Htruthy).
  rewrite (bind_returns_run _ _ _ _ Hnr).
  rewrite BigInt_of_toString, bind_lift_inr, Hbad.
  reflexivity.
Qed.

Lemma api_auth_nonce_not_an_integer_witness :
  api_auth_generate_proof sample_world
    (auth_request (VStr (lit "testuser")) (VArr [VNum 0; VNum 1])
       (VStr (lit "abc")))
  = ([CallStringToField (lit "testuser"); CallStringToField (lit "01");
      CallBuildPoseidon; CallPoseidon [8243121641273648500];
      CallBuildPoseidon; CallPoseidon [8243121641273648500; 12592]],
     {| status := 500; body := FailureBody (Engine SyntaxError) |}).
Proof.
  assert (H := api_auth_nonce_not_an_integer sample_world _
                 (fun inputs => fold_left (fun acc x => acc * 31 + x) inputs 17)
                 [(lit "username", VStr (lit "testuser"));
                  (lit "pattern", VArr [VNum 0; VNum 1]);
                  (lit "nonce", VStr (lit "abc"))]
                 [VNum 0; VNum 1] (Thrown (Engine SyntaxError))
                 eq_refl (fun _ => eq_refl) eq_refl eq_refl eq_refl eq_refl
                 eq_refl eq_refl eq_refl eq_refl
                 ltac:(vm_compute; reflexivity)).
  unfold auth_request. rewrite H. vm_compute. reflexivity.
Defined.

(** ** The encoder's image *)

Lemma BigInt_toString_nonneg_digits z :
  0 <= z ->
  exists c s, BigInt_toString z = c :: s /\ Forall digit_unit (c :: s).
Proof.
  intros Hz. unfold BigInt_toString.
  destruct z as [|q|q]; [| |lia].
  - exists 48%N, []. split; [reflexivity|].
    repeat constructor; unfold digit_unit; lia.
  - cbn [Z.to_int].
    pose proof (digits_of_uint_nonnil _
                  (DecimalPos.Unsigned.to_uint_nonnil q)) as Hn.
    pose proof (digits_of_uint_digit (Pos.to_uint q)) as Hd.
    destruct (digits_of_uint (Pos.to_uint q)) as [|c s]; [now elim Hn|].
    now exists c, s.
Qed.

(** X14: what [stringToFieldElement] returns is always a non-empty string of
    decimal digits, never signed: it is truthy, so the presence checks never
    reject it, and it meets the field-string format of the witness. *)
Theorem stringToFieldElement_is_field_string (str : jsstring) :
  is_field_string (VStr (stringToFieldElement str)) = true
  /\ truthy (VStr (stringToFieldElement str)) = true.
Proof.
  unfold stringToFieldElement.
  destruct (BigInt_toString_nonneg_digits
              (field_value (TextEncoder_encode str))
              (proj1 (field_value_bounds _))) as (c & s & -> & Hd).
  split; [|reflexivity].
  cbn [is_field_string]. apply forallb_forall. intros d Hin.
  rewrite Forall_forall in Hd. specialize (Hd d Hin). unfold digit_unit in Hd.
  apply andb_true_iff. split; apply N.leb_le; lia.
Qed.

(** ** Reading the bytes back *)

Lemma field_value_le_value bytes :
  field_value bytes = le_value (firstn 31 bytes).
Proof.
  rewrite field_value_firstn. apply field_value_short.
  rewrite length_firstn. lia.
Qed.

Lemma le_value_byte l : forall i,
  (i < List.length l)%nat ->
  (le_value l / 256 ^ Z.of_nat i) mod 256 = Z.of_N (Byte.to_N (nth i l x00)).
Proof.
  induction l as [|x rest IH]; intros i Hi; cbn [List.length] in Hi; [lia|].
  pose proof (Byte.to_N_bounded x) as Hx.
  pose proof (le_value_nonneg rest) as Hrest.
  cbn [le_value].
  replace (Z.of_N (Byte.to_N x) + 256 * le_value rest)
    with (Z.of_N (Byte.to_N x) + le_value rest * 256) by lia.
  destruct i as [|i].
  - cbn [nth]. change (256 ^ Z.of_nat 0) with 1. rewrite Z.div_1_r.
    rewrite Z.mod_add by lia. apply Z.mod_small. lia.
  - cbn [nth]. rewrite Nat2Z.inj_succ, Z.pow_succ_r by lia.
    rewrite <- Z.div_div by (try apply Z.pow_pos_nonneg; lia).
    rewrite Z.div_add by lia.
    rewrite (Z.div_small (Z.of_N (Byte.to_N x)) 256) by lia.
    rewrite Z.add_0_l. apply IH. lia.
Qed.

(** X15: within the first 31 bytes the encoding loses nothing: byte [i] of
    the UTF-8 form is digit [i] of the result in base 256, for every
    [i < min(len, 31)]. *)
Theorem stringToFieldElement_byte_read_back (str : jsstring) (i : nat) :
  let bytes := TextEncoder_encode str in
  (i < Nat.min (List.length bytes) 31)%nat ->
  exists v,
    StringToBigInt (stringToFieldElement str) = Some v
    /\ (v / 256 ^ Z.of_nat i) mod 256 = byte_at bytes i.
Proof.
  intros bytes Hi. exists (field_value bytes).
  split; [apply StringToBigInt_toString|].
  rewrite field_value_le_value, le_value_byte
    by (rewrite length_firstn; lia).
  unfold byte_at. f_equal. f_equal. apply nth_firstn_below. lia.
Qed.

Lemma stringToFieldElement_byte_read_back_witness :
  exists v,
    StringToBigInt (stringToFieldElement (lit "testuser")) = Some v
    /\ (v / 256 ^ Z.of_nat 4) mod 256 = 117.
Proof.
  destruct (stringToFieldElement_byte_read_back (lit "testuser") 4
              ltac:(vm_compute; lia)) as (v & Hv & Hbyte).
  exists v. split; [exact Hv|]. rewrite Hbyte. vm_compute. reflexivity.
Defined.

Lemma le_value_app_zero l : le_value (l ++ [x00]) = le_value l.
Proof.
  induction l as [|x rest IH]; [vm_compute; reflexivity|].
  change ((x :: rest) ++ [x00]) with (x :: (rest ++ [x00])).
  change (le_value (x :: rest ++ [x00]))
    with (Z.of_N (Byte.to_N x) + 256 * le_value (rest ++ [x00])).
  rewrite IH. reflexivity.
Qed.

Lemma field_value_app_zero bytes :
  field_value (bytes ++ [x00]) = field_value bytes.
Proof.
  destruct (Nat.le_gt_cases 31 (List.length bytes)) as [Hlong|Hshort].
  - rewrite (field_value_firstn (bytes ++ [x00])).
    rewrite firstn_app_long by exact Hlong.
    now rewrite <- field_value_firstn.
  - rewrite !field_value_short
      by (rewrite ?length_app; cbn [List.length]; lia).
    apply le_value_app_zero.
Qed.

Lemma scalar_values_app_unit c :
  is_high_surrogate c = false -> is_low_surrogate c = false ->
  forall n s, (List.length s <= n)%nat ->
  scalar_values (s ++ [c]) = scalar_values s ++ [c].
Proof.
  intros Hh Hl.
  assert (Hone : scalar_values [c] = [c])
    by (cbn [scalar_values]; now rewrite Hh, Hl).
  induction n as [|n IH]; intros s Hlen.
  - destruct s; [exact Hone|cbn [List.length] in Hlen; lia].
  - destruct s as [|d rest]; [exact Hone|].
    cbn [List.length] in Hlen.
    change ((d :: rest) ++ [c]) with (d :: (rest ++ [c])).
    cbn [scalar_values].
    destruct (is_high_surrogate d).
    + destruct rest as [|d' rest'].
      * change ([] ++ [c]) with [c]. cbv iota. rewrite Hl, Hone. reflexivity.
      * cbn [List.length] in Hlen.
        change ((d' :: rest') ++ [c]) with (d' :: (rest' ++ [c])).
        cbv beta iota.
        destruct (is_low_surrogate d').
        -- rewrite (IH rest') by lia. reflexivity.
        -- change (d' :: (rest' ++ [c])) with ((d' :: rest') ++ [c]).
           rewrite (IH (d' :: rest')) by (cbn [List.length]; lia).
           reflexivity.
    + destruct (is_low_surrogate d); rewrite (IH rest) by lia; reflexivity.
Qed.

(** X16: the encoding does not see trailing NUL characters: a string and the
    same string followed by U+0000 encode to the same field element, so the
    encoder is not injective even on strings of fewer than 31 bytes. *)
Theorem stringToFieldElement_trailing_nul (str : jsstring) :
  stringToFieldElement (str ++ [0%N]) = stringToFieldElement str.
Proof.
  unfold stringToFieldElement, TextEncoder_encode.
  rewrite (scalar_values_app_unit 0%N eq_refl eq_refl (List.length str))
    by apply Nat.le_refl.
  rewrite flat_map_app. cbn [flat_map]. rewrite app_nil_r.
  change (utf8_bytes 0) with [x00].
  now rewrite field_value_app_zero.
Qed.

(** ** Injectivity below 31 bytes *)

Lemma byte_of_N_nonzero n : (n mod 256 <> 0)%N -> byte_of_N n <> x00.
Proof.
  intros Hn E. apply Hn. rewrite <- byte_of_N_to_N, E. reflexivity.
Qed.

Lemma mod_256_nonzero (a b : N) :
  (0 < a)%N -> (b < 64)%N -> (a + b < 256)%N -> ((a + b) mod 256 <> 0)%N.
Proof. intros Ha Hb Hab. rewrite N.mod_small; lia. Qed.

Lemma utf8_bytes_nonzero cp :
  (0 < cp < 1114112)%N -> Forall (fun x => x <> x00) (utf8_bytes cp).
Proof.
  intros Hcp. unfold utf8_bytes.
  assert (H64 : forall x, (x mod 64 < 64)%N)
    by (intros x; apply N.mod_lt; discriminate).
  destruct (N.ltb_spec cp 128);
    [|destruct (N.ltb_spec cp 2048); [|destruct (N.ltb_spec cp 65536)]];
    repeat constructor; apply byte_of_N_nonzero.
  - rewrite N.mod_small; lia.
  - assert (Hq : (cp / 64 < 32)%N)
      by (apply N.Div0.div_lt_upper_bound; lia).
    revert Hq. generalize (cp / 64)%N. intros q Hq.
    apply mod_256_nonzero; lia.
  - specialize (H64 cp). revert H64. generalize (cp mod 64)%N. intros q Hq.
    apply mod_256_nonzero; lia.
  - assert (Hq : (cp / 4096 < 16)%N)
      by (apply N.Div0.div_lt_upper_bound; lia).
    revert Hq. generalize (cp / 4096)%N. intros q Hq.
    apply mod_256_nonzero; lia.
  - specialize (H64 (cp / 64)%N). revert H64.
    generalize ((cp / 64) mod 64)%N. intros q Hq.
    apply mod_256_nonzero; lia.
  - specialize (H64 cp). revert H64. generalize (cp mod 64)%N. intros q Hq.
    apply mod_256_nonzero; lia.
  - assert (Hq : (cp / 262144 < 5)%N)
      by (apply N.Div0.div_lt_upper_bound; lia).
    revert Hq. generalize (cp / 262144)%N. intros q Hq.
    apply mod_256_nonzero; lia.
  - specialize (H64 (cp / 4096)%N). revert H64.
    generalize ((cp / 4096) mod 64)%N. intros q Hq.
    apply mod_256_nonzero; lia.
  - specialize (H64 (cp / 64)%N). revert H64.
    generalize ((cp / 64) mod 64)%N. intros q Hq.
    apply mod_256_nonzero; lia.
  - specialize (H64 cp). revert H64. generalize (cp mod 64)%N. intros q Hq.
    apply mod_256_nonzero; lia.
Qed.

Lemma scalar_values_range : forall n s,
  (List.length s <= n)%nat -> nul_free s ->
  Forall (fun cp => (0 < cp < 1114112)%N) (scalar_values s).
Proof.
  unfold nul_free.
  induction n as [|n IH]; intros s Hlen Hs.
  - destruct s; [constructor|cbn [List.length] in Hlen; lia].
  - destruct s as [|c rest]; [constructor|].
    cbn [List.length] in Hlen. inversion Hs as [|? ? Hc Hrest]; subst.
    cbn [scalar_values].
    destruct (is_high_surrogate c) eqn:Hh.
    + unfold is_high_surrogate in Hh. apply andb_true_iff in Hh.
      destruct Hh as [Hh1 Hh2]. apply N.leb_le in Hh1, Hh2.
      destruct rest as [|d rest']; [repeat constructor; lia|].
      cbn [List.length] in Hlen. inversion Hrest as [|? ? Hd Hrest']; subst.
      destruct (is_low_surrogate d) eqn:Hl.
      * unfold is_low_surrogate in Hl. apply andb_true_iff in Hl.
        destruct Hl as [Hl1 Hl2]. apply N.leb_le in Hl1, Hl2.
        constructor; [lia|]. apply IH; [lia|exact Hrest'].
      * constructor; [lia|]. apply IH; [cbn [List.length]; lia|exact Hrest].
    + destruct (is_low_surrogate c); constructor; try lia;
        apply IH; try lia; exact Hrest.
Qed.

Lemma TextEncoder_encode_nonzero s :
  nul_free s -> Forall (fun x => x <> x00) (TextEncoder_encode s).
Proof.
  intros Hs. unfold TextEncoder_encode. apply Forall_flat_map.
  eapply Forall_impl; [|exact (scalar_values_range _ s (Nat.le_refl _) Hs)].
  intros cp Hcp. now apply utf8_bytes_nonzero.
Qed.

Lemma map_byte_of_N_inj s1 : forall s2,
  Forall (fun c => (c < 128)%N) s1 -> Forall (fun c => (c < 128)%N) s2 ->
  map byte_of_N s1 = map byte_of_N s2 -> s1 = s2.
Proof.
  induction s1 as [|c1 r1 IH]; intros [|c2 r2] H1 H2 Heq;
    try discriminate; [reflexivity|].
  inversion H1; inversion H2; subst. cbn [map] in Heq.
  injection Heq as Hc Hr.
  apply (f_equal Byte.to_N) in Hc. rewrite !byte_of_N_to_N in Hc.
  rewrite !N.mod_small in Hc by lia.
  f_equal; [exact Hc | now apply IH].
Qed.

(** X17: on strings without U+0000 whose UTF-8 form has at most 31 bytes the
    encoding is injective: two such strings with the same field element have
    the same UTF-8 bytes, and when both are ASCII they are the same string. *)
Theorem stringToFieldElement_injective_short (s1 s2 : jsstring) :
  nul_free s1 -> nul_free s2 ->
  (List.length (TextEncoder_encode s1) <= 31)%nat ->
  (List.length (TextEncoder_encode s2) <= 31)%nat ->
  stringToFieldElement s1 = stringToFieldElement s2 ->
  TextEncoder_encode s1 = TextEncoder_encode s2
  /\ (Forall (fun c => (c < 128)%N) s1 -> Forall (fun c => (c < 128)%N) s2 ->
      s1 = s2).
Proof.
  intros Hn1 Hn2 Hl1 Hl2 Heq. unfold stringToFieldElement in Heq.
  apply BigInt_toString_inj in Heq.
  rewrite !field_value_short in Heq by assumption.
  apply le_value_inj in Heq; try (now apply TextEncoder_encode_nonzero).
  split; [exact Heq|].
  intros Ha1 Ha2. rewrite !TextEncoder_encode_ascii in Heq by assumption.
  now apply map_byte_of_N_inj.
Qed.

Lemma stringToFieldElement_injective_short_witness :
  TextEncoder_encode (lit "alice") = TextEncoder_encode (lit "alice")
  /\ (Forall (fun c => (c < 128)%N) (lit "alice") ->
      Forall (fun c => (c < 128)%N) (lit "alice") ->
      lit "alice" = lit "alice").
Proof.
  apply (stringToFieldElement_injective_short (lit "alice") (lit "alice")).
  - unfold nul_free. repeat constructor.
  - unfold nul_free. repeat constructor.
  - vm_compute. lia.
  - vm_compute. lia.
  - reflexivity.
Defined.

(** ** The two proof endpoints agree *)

Lemma witness_of_request w :
  witness_of
    [(lit "username", username w); (lit "password", password w);
     (lit "username_hash", username_hash w);
     (lit "credential_hash", credential_hash w);
     (lit "nonce", nonce w); (lit "result_hash", result_hash w)]
  = w.
Proof. now destruct w. Qed.

Lemma stringToFieldElement_truthy str :
  truthy (VStr (stringToFieldElement str)) = true.
Proof.
  unfold stringToFieldElement.
  destruct (BigInt_toString_nonneg_digits
              (field_value (TextEncoder_encode str))
              (proj1 (field_value_bounds _))) as (c & s & -> & _).
  reflexivity.
Qed.

(** X18: the witness that the full authentication flow hands to the prover
    can be replayed through [/api/generate-proof]: provided its three hashes
    and its nonce string are non-empty (the two encoded fields always are),
    that endpoint, on a later request and so in any world, passes its
    presence check and calls the prover once, with exactly the same six
    values. *)
Theorem auth_witness_replay (world later : World) (req_body : value)
    (w : CircuitInputs) :
  In (CallFullProve w) (fst (api_auth_generate_proof world req_body)) ->
  truthy (username_hash w) = true ->
  truthy (credential_hash w) = true ->
  truthy (nonce w) = true ->
  truthy (result_hash w) = true ->
  truthy (username w) = true
  /\ truthy (password w) = true
  /\ fst (api_generate_proof later (witness_request w)) = [CallFullProve w]
  /\ (status (snd (api_generate_proof later (witness_request w))) = 200
      \/ status (snd (api_generate_proof later (witness_request w))) = 500).
Proof.
  intros Hin Hh1 Hh2 Hn Hh3.
  destruct (auth_prover_call_inv _ _ _ Hin)
    as (props & elems & nv & c & n & h1 & h2 & h3 & -> & D & Hw).
  assert (Hu : truthy (username w) = true).
  { rewrite Hw. cbn [auth_inputs username]. unfold usernameField_of.
    apply stringToFieldElement_truthy. }
  assert (Hp : truthy (password w) = true).
  { rewrite Hw. cbn [auth_inputs password].
    apply stringToFieldElement_truthy. }
  assert (Hall : forallb truthy
                   (six_fields
                      [(lit "username", username w);
                       (lit "password", password w);
                       (lit "username_hash", username_hash w);
                       (lit "credential_hash", credential_hash w);
                       (lit "nonce", nonce w);
                       (lit "result_hash", result_hash w)]) = true).
  { change (truthy (username w) && (truthy (password w)
            && (truthy (username_hash w) && (truthy (credential_hash w)
            && (truthy (nonce w) && (truthy (result_hash w) && true)))))
            = true).
    now rewrite Hu, Hp, Hh1, Hh2, Hn, Hh3. }
  unfold witness_request.
  rewrite (api_generate_proof_run _ _ Hall), witness_of_request.
  split; [exact Hu|]. split; [exact Hp|]. split; [reflexivity|].
  cbn [snd].
  destruct (snd (generateProof later w)) as [e|pd]; [now right|now left].
Qed.

Lemma auth_witness_replay_witness :
  let w := {| username := VStr (lit "8243121641273648500");
              password := VStr (lit "241393873200");
              username_hash := VStr (lit "8243121641273649027");
              credential_hash := VStr (lit "255536771120876993037");
              nonce := VStr (lit "12345");
              result_hash := VStr (lit "7921639904747186812829") |} in
  fst (api_generate_proof failing_prover_world (witness_request w))
  = [CallFullProve w].
Proof.
  intros w.
  assert (Hin : In (CallFullProve w)
                  (fst (api_auth_generate_proof sample_world
                          sample_auth_request))).
  { vm_compute. do 8 right. left. reflexivity. }
  exact (proj1 (proj2 (proj2
           (auth_witness_replay sample_world failing_prover_world
              sample_auth_request w Hin eq_refl eq_refl eq_refl eq_refl)))).
Defined.

(** ** The pattern is seen through its concatenation only *)

(** X19: the full authentication flow sees the pattern only through
    [pattern.join('')]: take two requests, each in its own world and with its
    own nonce, with the same username and with patterns of safe integers that
    join to the same string. When both reach the prover, their witnesses have
    the same [username] and the same [password], the encoding of that joined
    string, and in both runs the first two hashes are called on the same
    integers. So [null] entries do not count, and [[1, 11]] is [[11, 1]]. *)
Theorem api_auth_pattern_through_join (world1 world2 : World)
    (user supplied1 supplied2 : value) (l1 l2 : list value)
    (w1 w2 : CircuitInputs) :
  Array_join [] l1 = Array_join [] l2 ->
  forallb exact_numbers l1 = true ->
  forallb exact_numbers l2 = true ->
  In (CallFullProve w1)
    (fst (api_auth_generate_proof world1
            (auth_request user (VArr l1) supplied1))) ->
  In (CallFullProve w2)
    (fst (api_auth_generate_proof world2
            (auth_request user (VArr l2) supplied2))) ->
  username w1 = username w2
  /\ password w1 = password w2
  /\ password w1 = VStr (stringToFieldElement (Array_join [] l1))
  /\ exists U P t1 t2,
       BigInt (username w1) = inr U
       /\ BigInt (password w1) = inr P
       /\ filter is_poseidon_call
            (fst (api_auth_generate_proof world1
                    (auth_request user (VArr l1) supplied1)))
          = CallPoseidon [U] :: CallPoseidon [U; P] :: t1
       /\ filter is_poseidon_call
            (fst (api_auth_generate_proof world2
                    (auth_request user (VArr l2) supplied2)))
          = CallPoseidon [U] :: CallPoseidon [U; P] :: t2.
Proof.
  intros Hjoin _ _ H1 H2.
  destruct (auth_prover_call_inv _ _ _ H1)
    as (props1 & e1 & nv1 & c1 & n1 & a1 & a2 & a3 & Hr1 & D1 & ->).
  destruct (auth_prover_call_inv _ _ _ H2)
    as (props2 & e2 & nv2 & c2 & n2 & b1 & b2 & b3 & Hr2 & D2 & ->).
  unfold auth_request in Hr1, Hr2.
  injection Hr1 as <-. injection Hr2 as <-.
  pose proof (d_pattern _ _ _ _ _ _ _ _ _ D1) as Hp1.
  pose proof (d_pattern _ _ _ _ _ _ _ _ _ D2) as Hp2.
  change (VArr l1 = VArr e1) in Hp1. change (VArr l2 = VArr e2) in Hp2.
  injection Hp1 as <-. injection Hp2 as <-.
  pose proof (auth_hash_calls _ _ _ _ _ _ _ _ _ D1) as Hc1.
  pose proof (auth_hash_calls _ _ _ _ _ _ _ _ _ D2) as Hc2.
  unfold auth_request. rewrite Hc1, Hc2.
  cbn [auth_inputs username password]. unfold usernameField_of.
  change (lookup (lit "username")
            [(lit "username", user); (lit "pattern", VArr l1);
             (lit "nonce", supplied1)]) with user.
  change (lookup (lit "username")
            [(lit "username", user); (lit "pattern", VArr l2);
             (lit "nonce", supplied2)]) with user.
  split; [reflexivity|]. split; [now rewrite Hjoin|].
  split; [reflexivity|].
  exists (field_value (TextEncoder_encode (ToString user))),
    (pattern_int l1), [CallPoseidon [c1; n1]], [CallPoseidon [c2; n2]].
  split; [apply BigInt_stringToFieldElement|].
  split; [apply BigInt_stringToFieldElement|].
  unfold username_int, pattern_int.
  change (lookup (lit "username")
            [(lit "username", user); (lit "pattern", VArr l1);
             (lit "nonce", supplied1)]) with user.
  change (lookup (lit "username")
            [(lit "username", user); (lit "pattern", VArr l2);
             (lit "nonce", supplied2)]) with user.
  rewrite Hjoin. split; reflexivity.
Qed.

Lemma api_auth_pattern_through_join_witness :
  let r1 := auth_request (VStr (lit "u"))
              (VArr [VNull; VNum 1; VUndefined; VNum 11]) (VNum 5) in
  let r2 := auth_request (VStr (lit "u")) (VArr [VNum 11; VNum 1])
              VUndefined in
  exists w1 w2,
    In (CallFullProve w1) (fst (api_auth_generate_proof sample_world r1))
    /\ In (CallFullProve w2) (fst (api_auth_generate_proof sample_world r2))
    /\ username w1 = username w2
    /\ password w1 = password w2.
Proof.
  intros r1 r2.
  set (w1 := {| username := VStr (lit "117");
                password := VStr (lit "3223857");
                username_hash := VStr (lit "644");
                credential_hash := VStr (lit "3243821");
                nonce := VStr (lit "5");
                result_hash := VStr (lit "100574793") |}).
  set (w2 := {| username := VStr (lit "117");
                password := VStr (lit "3223857");
                username_hash := VStr (lit "644");
                credential_hash := VStr (lit "3243821");
                nonce := VStr (lit "424242");
                result_hash := VStr (lit "100999030") |}).
  assert (H1 : In (CallFullProve w1)
                 (fst (api_auth_generate_proof sample_world r1))).
  { vm_compute. do 8 right. left. reflexivity. }
  assert (H2 : In (CallFullProve w2)
                 (fst (api_auth_generate_proof sample_world r2))).
  { vm_compute. do 9 right. left. reflexivity. }
  exists w1, w2.
  destruct (api_auth_pattern_through_join sample_world sample_world
              (VStr (lit "u")) (VNum 5) VUndefined
              [VNull; VNum 1; VUndefined; VNum 11] [VNum 11; VNum 1] w1 w2
              ltac:(vm_compute; reflexivity) eq_refl eq_refl H1 H2)
    as (Hu & Hp & _).
  exact (conj H1 (conj H2 (conj Hu Hp))).
Defined.

(** ** [POST /api/string-to-field] on numbers *)

Lemma BigInt_toString_nonempty z : exists c s, BigInt_toString z = c :: s.
Proof.
  destruct (Z.neg_nonneg_cases z) as [Hneg|Hpos].
  - unfold BigInt_toString. destruct z as [|q|q]; try lia.
    cbn [Z.to_int]. now eexists _, _.
  - destruct (BigInt_toString_nonneg_digits z Hpos) as (c & s & H & _).
    now exists c, s.
Qed.

(** X20: [/api/string-to-field] encodes a non-zero safe integer as it
    encodes its decimal string, since [TextEncoder] converts its argument to
    a string; but the number 0 is rejected with 400, as a missing value,
    while the string ["0"] is encoded. *)
Theorem api_string_to_field_numbers (n : Z) :
  (safe_integer n = true -> n <> 0 ->
   api_string_to_field (field_request (VNum n))
   = ([CallStringToField (Number_toString n)],
      {| status := 200;
         body := FieldElementBody
                   (stringToFieldElement (Number_toString n)) |})
   /\ api_string_to_field (field_request (VStr (Number_toString n)))
      = api_string_to_field (field_request (VNum n)))
  /\ status (snd (api_string_to_field (field_request (VNum 0)))) = 400
  /\ status (snd (api_string_to_field
                    (field_request (VStr (Number_toString 0))))) = 200.
Proof.
  split; [|split; reflexivity].
  intros _ Hn. unfold api_string_to_field, field_request.
  rewrite !get_prop_object, !bind_ret_l.
  change (lookup (lit "value") [(lit "value", VNum n)]) with (VNum n).
  change (lookup (lit "value") [(lit "value", VStr (Number_toString n))])
    with (VStr (Number_toString n)).
  cbn [truthy]. replace (n =? 0) with false by (symmetry; now apply Z.eqb_neq).
  unfold Number_toString.
  destruct (BigInt_toString_nonempty n) as (c & s & Hs).
  cbn [negb]. unfold String_of, String_throws. cbn [ToString].
  unfold Number_toString. rewrite Hs.
  split; reflexivity.
Qed.

Lemma api_string_to_field_numbers_witness :
  api_string_to_field (field_request (VNum 42))
  = ([CallStringToField (lit "42")],
     {| status := 200; body := FieldElementBody (lit "12852") |})
  /\ api_string_to_field (field_request (VStr (lit "42")))
     = api_string_to_field (field_request (VNum 42)).
Proof.
  destruct (proj1 (api_string_to_field_numbers 42) eq_refl
              ltac:(discriminate))
    as [Hrun Hsame].
  split.
  - rewrite Hrun. vm_compute. reflexivity.
  - rewrite <- Hsame. vm_compute. reflexivity.
Defined.

(** ** Requests without a body *)

(** X21: when [req.body] is [undefined] or [null], reading the first field
    throws inside the [try] block: each of the four POST handlers answers
    500 with the engine's TypeError, not 400, and calls nothing. *)
Theorem handlers_without_body (world : World) (req_body : value) :
  req_body = VUndefined \/ req_body = VNull ->
  api_hash world req_body
  = ([], {| status := 500; body := ErrorBody (Engine TypeError) |})
  /\ api_string_to_field req_body
     = ([], {| status := 500; body := ErrorBody (Engine TypeError) |})
  /\ api_generate_proof world req_body
     = ([], {| status := 500; body := FailureBody (Engine TypeError) |})
  /\ api_auth_generate_proof world req_body
     = ([], {| status := 500; body := FailureBody (Engine TypeError) |}).
Proof.
  intros [->| ->]; repeat split.
Qed.

Lemma handlers_without_body_witness :
  api_hash sample_world VUndefined
  = ([], {| status := 500; body := ErrorBody (Engine TypeError) |})
  /\ api_string_to_field VUndefined
     = ([], {| status := 500; body := ErrorBody (Engine TypeError) |})
  /\ api_generate_proof sample_world VUndefined
     = ([], {| status := 500; body := FailureBody (Engine TypeError) |})
  /\ api_auth_generate_proof sample_world VUndefined
     = ([], {| status := 500; body := FailureBody (Engine TypeError) |}).
Proof.
  exact (handlers_without_body sample_world VUndefined (or_introl eq_refl)).
Defined.

(** ** What a 200 answer of the full flow says *)


